(** * Synquer SDK: event-delivery pipeline

    A shallow embedding of [src/job.ts] (the per-job event accumulator and
    its completion state machine) and of [src/client.ts] (the dispatcher:
    per-job and batch delivery, the flush scheduler with its single-flight
    guard and failure requeue, and the retrying transport), followed by the
    properties the specification states about them.

    Conventions of the embedding.
    - An [async] method is a computation in a state-and-exception monad:
      a resolved promise is [Ok], a rejected one is [Throw].
    - JavaScript numbers that the code only uses as integers (timestamps,
      HTTP statuses, [maxRetries], [batchSize], delays) are [Z].  A number
      inside a value, [JNum z], stands for the double nearest to [z].
    - The outside world is given by oracles: [clock k] is what the k-th call
      of [Date.now()] returns and [net k] is how the k-th call of [fetch]
      settles (the abort after the 10 s timeout is one way of rejecting).
      Every call of [fetch], every backoff sleep and every call of the
      [onError] observer is appended to a trace.
    - A method runs to its end before the next one starts, except where a
      property is about what happens while [flush] is suspended in
      [_send]: there [flush] is taken in its two halves, before and after
      the [await].
    - Arrays are lists of any length, and [JSON.stringify] of the events
      does not fail: limits of the engine on the number of arguments of
      [push(...)] and [unshift(...)], and values that cannot be
      serialised, are outside the model. *)

From Stdlib Require Import ZArith List Ascii String Bool Lia.
From Stdlib Require Import DecimalString Sorted.
Import ListNotations.
Open Scope string_scope.
Open Scope Z_scope.

Set Implicit Arguments.
Set Warnings "-register-all".

(* ------------------------------------------------------------------ *)
(** ** JavaScript values *)

(** The values [unknown] and [Record<string, unknown>] range over.  An
    object is an ordinary object, given by its own properties in
    insertion order; [JErrorObj] is an instance of [Error] itself, with
    its message and its stack. *)
Inductive JsValue : Type :=
| JUndefined
| JNull
| JBool (b : bool)
| JNum (n : Z)
| JStr (s : string)
| JArr (xs : list JsValue)
| JObj (fields : list (string * JsValue))
| JErrorObj (message : string) (stack : option string).

Definition JsObject := list (string * JsValue).

(** [o[k] = v]: an existing key keeps its position, a new one goes last. *)
Fixpoint obj_set (k : string) (v : JsValue) (o : JsObject) : JsObject :=
  match o with
  | [] => [(k, v)]
  | (k', v') :: o' =>
      if String.eqb k k' then (k, v) :: o' else (k', v') :: obj_set k v o'
  end.

(** [{ ...dst, ...src }] *)
Definition obj_spread (src dst : JsObject) : JsObject :=
  fold_left (fun acc kv => obj_set (fst kv) (snd kv) acc) src dst.

(** [...(cond && { k: v })] *)
Definition obj_spread_if (cond : bool) (k : string) (v : JsValue)
    (dst : JsObject) : JsObject :=
  if cond then obj_set k v dst else dst.

(** Truthiness of a string: the empty string is falsy. *)
Definition truthy_str (s : string) : bool :=
  negb (String.eqb s "").

Definition string_of_Z (z : Z) : string :=
  NilZero.string_of_int (Z.to_int z).

(** An [Error] object, identified by its message. *)
Inductive Error : Type :=
| MkError (message : string).

Definition error_message (e : Error) : string :=
  match e with MkError m => m end.

(** How an evaluation ends: with a value, or with a throw (for a promise:
    resolved or rejected). *)
Inductive Res (A : Type) : Type :=
| Ok (a : A)
| Throw (e : Error).

Arguments Ok {A} a.
Arguments Throw {A} e.

(** The double nearest to the integer [x >= 0], ties to the even
    significand; below [2^53] every integer is a double. *)
Definition round_double (x : Z) : Z :=
  if x <? 2 ^ 53 then x
  else
    let ulp := 2 ^ (Z.log2 x - 52) in
    let q := x / ulp in
    let r := x mod ulp in
    if 2 * r <? ulp then q * ulp
    else if ulp <? 2 * r then (q + 1) * ulp
    else if Z.even q then q * ulp
    else (q + 1) * ulp.

(** The decimal with the fewest significant digits, at least [k], that
    still reads back as the double [x] of [n] digits; of two with that
    many digits the nearer one, and the even one when they are as near. *)
Fixpoint shortest_decimal (fuel : nat) (k n x : Z) : Z :=
  match fuel with
  | O => x
  | Datatypes.S fuel' =>
      let scale := 10 ^ (n - k) in
      let lo := x / scale * scale in
      let hi := lo + scale in
      let lo_ok := round_double lo =? x in
      let hi_ok := round_double hi =? x in
      if lo_ok && hi_ok then
        if x - lo <? hi - x then lo
        else if hi - x <? x - lo then hi
        else if Z.even (x / scale) then lo else hi
      else if lo_ok then lo
      else if hi_ok then hi
      else shortest_decimal fuel' (k + 1) n x
  end.

Fixpoint drop_zeros (l : list ascii) : list ascii :=
  match l with
  | "0"%char :: l' => drop_zeros l'
  | _ => l
  end.

(** [Number::toString] of a number with an integer value: the shortest
    digits that read back as the number, written out in full below
    [10^21] and with an exponent from there on. *)
Definition Number_toString (z : Z) : string :=
  let sign := if z <? 0 then "-" else "" in
  let x := round_double (Z.abs z) in
  if 2 ^ 1024 <=? x then sign ++ "Infinity"
  else
    let digits := String.length (string_of_Z x) in
    let v := shortest_decimal digits 1 (Z.of_nat digits) x in
    let all := string_of_Z v in
    if v <? 10 ^ 21 then sign ++ all
    else
      let e := "e+" ++ string_of_Z (Z.of_nat (String.length all) - 1) in
      match rev (drop_zeros (rev (list_ascii_of_string all))) with
      | [] => sign ++ all
      | [d] => sign ++ String d e
      | d :: ds => sign ++ String d ("." ++ string_of_list_ascii ds ++ e)
      end.

(** The [TypeError] of [ToPrimitive] on an object that has neither a
    callable [toString] nor a [valueOf] that returns a primitive. *)
Definition to_primitive_TypeError : Error :=
  MkError "Cannot convert object to primitive value".

(** [String(v)].  An array is joined with commas, [undefined] and [null]
    elements giving the empty string.  An [Error] is rendered by
    [Error.prototype.toString].  A plain object is rendered by
    [Object.prototype.toString], unless it has a [toString] of its own:
    that one is not a function, no value here is, and the [valueOf] that
    is tried next gives no primitive either, so the conversion throws. *)
Fixpoint js_String (v : JsValue) : Res string :=
  match v with
  | JUndefined => Ok "undefined"
  | JNull => Ok "null"
  | JBool true => Ok "true"
  | JBool false => Ok "false"
  | JNum n => Ok (Number_toString n)
  | JStr s => Ok s
  | JArr xs =>
      let elt x :=
        match x with
        | JUndefined | JNull => Ok ""
        | _ => js_String x
        end in
      (fix join (l : list JsValue) : Res string :=
         match l with
         | [] => Ok ""
         | x :: r =>
             match elt x with
             | Throw e => Throw e
             | Ok s =>
                 match r with
                 | [] => Ok s
                 | _ :: _ =>
                     match join r with
                     | Throw e => Throw e
                     | Ok t => Ok (s ++ "," ++ t)
                     end
                 end
             end
         end) xs
  | JObj fields =>
      if existsb (fun kv => String.eqb (fst kv) "toString") fields
      then Throw to_primitive_TypeError
      else Ok "[object Object]"
  | JErrorObj m _ => Ok (if String.eqb m "" then "Error" else "Error: " ++ m)
  end.

(* ------------------------------------------------------------------ *)
(** ** Promises as a state-and-exception monad *)

Definition M (St A : Type) : Type := St -> Res A * St.

Definition ret {St A} (a : A) : M St A :=
  fun s => (Ok a, s).

Definition bind {St A B} (m : M St A) (k : A -> M St B) : M St B :=
  fun s =>
    match m s with
    | (Ok a, s') => k a s'
    | (Throw e, s') => (Throw e, s')
    end.

Definition modify {St} (f : St -> St) : M St unit :=
  fun s => (Ok tt, f s).

(** An evaluation that does not touch the state. *)
Definition lift {St A} (r : Res A) : M St A :=
  fun s => (r, s).

(** [try { body } catch { handler }] *)
Definition try_catch {St A} (body : M St A) (handler : Error -> M St A)
    : M St A :=
  fun s =>
    match body s with
    | (Ok a, s') => (Ok a, s')
    | (Throw e, s') => handler e s'
    end.

(** [try { body } finally { cleanup }]; [cleanup] cannot throw here. *)
Definition try_finally {St A} (body : M St A) (cleanup : St -> St)
    : M St A :=
  fun s =>
    match body s with
    | (r, s') => (r, cleanup s')
    end.

Declare Scope js_scope.
Delimit Scope js_scope with js.
Notation "x <- m ;; k" := (bind m (fun x => k))
  (at level 61, m at next level, right associativity) : js_scope.
Notation "m ;; k" := (bind m (fun _ => k))
  (at level 61, right associativity) : js_scope.
Open Scope js_scope.

(* ------------------------------------------------------------------ *)
(** ** types.ts *)

Inductive EventType : Type :=
| job_started | job_event | job_done | job_failed | job_skipped | job_review.

Record IngestEvent : Type := {
  jobId : string;
  externalId : option string;
  type : EventType;
  timestamp : Z;
  data : option JsObject
}.

Record Entity : Type := {
  entity_type : string;
  entity_id : string;
  entity_ref : option string
}.

Record JobOptions : Type := {
  jo_type : string;
  jo_entity : option Entity;
  jo_externalId : option string;
  jo_metadata : option JsObject
}.

Record EventOptions : Type := {
  eo_message : option string;
  eo_data : option JsObject
}.

(** The four terminal kinds. *)
Definition is_terminal (t : EventType) : bool :=
  match t with
  | job_done | job_failed | job_skipped | job_review => true
  | job_started | job_event => false
  end.

(* ------------------------------------------------------------------ *)
(** ** job.ts *)

(** What [failed(error: unknown)] stores under [error]; for a value that
    is neither an [Error] nor a string, [String(error)] may throw. *)
Definition errorData (error : JsValue) : Res JsObject :=
  match error with
  | JErrorObj m st =>
      Ok [("message", JStr m);
          ("stack", match st with Some s => JStr s | None => JUndefined end)]
  | JStr s => Ok [("message", JStr s)]
  | other =>
      match js_String other with
      | Ok s => Ok [("message", JStr s)]
      | Throw e => Throw e
      end
  end.

(** The mutable fields of a [Job]. *)
Record Job : Type := {
  id : string;
  _events : list IngestEvent;
  _completed : bool
}.

(** A job, the number of readings of the clock taken so far, and the state
    [S] of whatever the injected [sendFn] works on. *)
Record JState (S : Type) : Type := {
  the_job : Job;
  ticks : nat;
  ext : S
}.

Section JobMethods.

Variable S : Type.

(** [clock k] is the value of the k-th call of [Date.now()]. *)
Variable clock : nat -> Z.

(** The injected send function. *)
Variable sendFn : list IngestEvent -> M S unit.

Definition Date_now : M (JState S) Z :=
  fun st =>
    (Ok (clock (ticks st)),
     {| the_job := the_job st; ticks := Datatypes.S (ticks st);
        ext := ext st |}).

Definition this : M (JState S) Job :=
  fun st => (Ok (the_job st), st).

(** [this._events.push(e)] *)
Definition events_push (e : IngestEvent) : M (JState S) unit :=
  modify (fun st =>
    {| the_job := {| id := id (the_job st);
                     _events := _events (the_job st) ++ [e];
                     _completed := _completed (the_job st) |};
       ticks := ticks st; ext := ext st |}).

(** [this._completed = true] *)
Definition set_completed : M (JState S) unit :=
  modify (fun st =>
    {| the_job := {| id := id (the_job st);
                     _events := _events (the_job st);
                     _completed := true |};
       ticks := ticks st; ext := ext st |}).

(** [await this._sendFn(this._events)] *)
Definition call_sendFn : M (JState S) unit :=
  fun st =>
    match sendFn (_events (the_job st)) (ext st) with
    | (r, x) => (r, {| the_job := the_job st; ticks := ticks st; ext := x |})
    end.

(** [data] of the [job.started] event. *)
Definition started_data (options : JobOptions) : JsObject :=
  let d0 : JsObject := [("jobType", JStr (jo_type options))] in
  let d1 :=
    match jo_entity options with
    | Some en =>
        obj_spread_if (truthy_str (entity_type en))
          "entityType" (JStr (entity_type en)) d0
    | None => d0
    end in
  let d2 :=
    match jo_entity options with
    | Some en =>
        obj_spread_if (truthy_str (entity_id en))
          "entityId" (JStr (entity_id en)) d1
    | None => d1
    end in
  let d3 :=
    match jo_entity options with
    | Some {| entity_ref := Some r |} =>
        obj_spread_if (truthy_str r) "entityRef" (JStr r) d2
    | _ => d2
    end in
  match jo_metadata options with
  | Some md =>
      obj_spread_if (0 <? Z.of_nat (List.length md)) "metadata" (JObj md) d3
  | None => d3
  end.

(** [new Job(id, options, sendFn)]: the started event is pushed in the
    constructor. *)
Definition new_Job (id0 : string) (options : JobOptions)
    (ticks0 : nat) (ext0 : S) : JState S :=
  {| the_job := {| id := id0;
                   _events :=
                     [ {| jobId := id0;
                          externalId := jo_externalId options;
                          type := job_started;
                          timestamp := clock ticks0;
                          data := Some (started_data options) |} ];
                   _completed := false |};
     ticks := Datatypes.S ticks0;
     ext := ext0 |}.

(** [event(messageOrOptions)] *)
Definition event (messageOrOptions : string + EventOptions)
    : M (JState S) unit :=
  j <- this ;;
  if _completed j then ret tt else
  let opts :=
    match messageOrOptions with
    | inl m => {| eo_message := Some m; eo_data := None |}
    | inr o => o
    end in
  now <- Date_now ;;
  events_push
    {| jobId := id j;
       externalId := None;
       type := job_event;
       timestamp := now;
       data :=
         Some (obj_spread
                 (match eo_data opts with Some d => d | None => [] end)
                 (match eo_message opts with
                  | Some m => obj_spread_if (truthy_str m) "message" (JStr m) []
                  | None => []
                  end)) |}.

(** [this._events[0]?.timestamp ?? Date.now()] *)
Definition startTs_of (j : Job) : M (JState S) Z :=
  match nth_error (_events j) 0 with
  | Some e => ret (timestamp e)
  | None => Date_now
  end.

(** [done(result?)] *)
Definition done (result : JsValue) : M (JState S) unit :=
  j <- this ;;
  if _completed j then ret tt else
  set_completed ;;
  startTs <- startTs_of j ;;
  now <- Date_now ;;
  events_push
    {| jobId := id j;
       externalId := None;
       type := job_done;
       timestamp := now;
       data :=
         Some (obj_set "durationMs" (JNum (now - startTs))
                 (match result with
                  | JUndefined => []
                  | r => [("result", r)]
                  end)) |} ;;
  call_sendFn.

(** [failed(error)]: the job is marked completed and the clock read
    before [errorData] is computed, so a throw of [String(error)] leaves a
    completed job without a terminal event and without a call of
    [sendFn]. *)
Definition failed (error : JsValue) : M (JState S) unit :=
  j <- this ;;
  if _completed j then ret tt else
  set_completed ;;
  startTs <- startTs_of j ;;
  now <- Date_now ;;
  d <- lift (errorData error) ;;
  events_push
    {| jobId := id j;
       externalId := None;
       type := job_failed;
       timestamp := now;
       data :=
         Some [("error", JObj d);
               ("durationMs", JNum (now - startTs))] |} ;;
  call_sendFn.

(** [skip(reason)] *)
Definition skip (reason : string) : M (JState S) unit :=
  j <- this ;;
  if _completed j then ret tt else
  set_completed ;;
  now <- Date_now ;;
  events_push
    {| jobId := id j;
       externalId := None;
       type := job_skipped;
       timestamp := now;
       data := Some [("message", JStr reason)] |} ;;
  call_sendFn.

(** [review(reason)] *)
Definition review (reason : string) : M (JState S) unit :=
  j <- this ;;
  if _completed j then ret tt else
  set_completed ;;
  now <- Date_now ;;
  events_push
    {| jobId := id j;
       externalId := None;
       type := job_review;
       timestamp := now;
       data := Some [("message", JStr reason)] |} ;;
  call_sendFn.

(** A call the host makes on a job. *)
Inductive Terminal : Type :=
| TDone (result : JsValue)
| TFailed (error : JsValue)
| TSkip (reason : string)
| TReview (reason : string).

Inductive Call : Type :=
| CEvent (messageOrOptions : string + EventOptions)
| CTerminal (t : Terminal).

Definition terminal (t : Terminal) : M (JState S) unit :=
  match t with
  | TDone r => done r
  | TFailed e => failed e
  | TSkip r => skip r
  | TReview r => review r
  end.

Definition call (c : Call) : M (JState S) unit :=
  match c with
  | CEvent a => event a
  | CTerminal t => terminal t
  end.

(** The host makes the calls one after the other, awaiting each and
    carrying on whether it resolved or rejected. *)
Fixpoint run_calls (cs : list Call) (st : JState S) : JState S :=
  match cs with
  | [] => st
  | c :: cs' => run_calls cs' (snd (call c st))
  end.

End JobMethods.

(** A spy around a send function: it records the argument of every call
    before passing it on (what [vi.fn] does in tests/job.test.ts). *)
Definition spy {S : Type} (sendFn : list IngestEvent -> M S unit)
    : list IngestEvent -> M (S * list (list IngestEvent)) unit :=
  fun events st =>
    match sendFn events (fst st) with
    | (r, x) => (r, (x, (snd st ++ [events])%list))
    end.

(* ------------------------------------------------------------------ *)
(** ** client.ts *)

Inductive Mode : Type :=
| per_job
| batch.

Definition DEFAULT_BASE_URL : string := "https://api.synquer.dev".
Definition DEFAULT_MODE : Mode := per_job.
Definition DEFAULT_BATCH_INTERVAL : Z := 2000.
Definition DEFAULT_BATCH_SIZE : Z := 100.
Definition DEFAULT_MAX_RETRIES : Z := 3.
Definition FETCH_TIMEOUT_MS : Z := 10000.

(** The observer returns [None] when it returns normally and [Some e] when
    it throws [e] itself. *)
Definition Observer : Type := Error -> option Error.

(** [SynquerOptions], as the host passes them. *)
Record SynquerOptions : Type := {
  opt_apiKey : string;
  opt_baseUrl : option string;
  opt_mode : option Mode;
  opt_batchInterval : option Z;
  opt_batchSize : option Z;
  opt_maxRetries : option Z;
  opt_onError : option Observer;
  opt_disabled : option bool
}.

(** [this._options], with the defaults filled in. *)
Record Options : Type := {
  apiKey : string;
  baseUrl : string;
  mode : Mode;
  batchInterval : Z;
  batchSize : Z;
  maxRetries : Z;
  disabled : bool;
  onError : option Observer
}.

Inductive Timer : Type :=
| Interval (ms : Z).

Record Synquer : Type := {
  _options : Options;
  _buffer : list IngestEvent;
  _flushTimer : option Timer;
  _flushing : bool;
  _shutdownCalled : bool
}.

(** [s.replace(/\/+$/, '')] *)
Definition strip_trailing_slashes (s : string) : string :=
  let fix drop (l : list Ascii.ascii) : list Ascii.ascii :=
    match l with
    | c :: l' => if Ascii.eqb c "/"%char then drop l' else l
    | [] => []
    end in
  string_of_list_ascii (rev (drop (rev (list_ascii_of_string s)))).

Definition or_default {A} (o : option A) (d : A) : A :=
  match o with Some a => a | None => d end.

(** [new Synquer(options)] *)
Definition new_Synquer (options : SynquerOptions) : Res Synquer :=
  if negb (truthy_str (opt_apiKey options)) then
    Throw (MkError "Synquer: apiKey is required")
  else
    Ok {| _options :=
            {| apiKey := opt_apiKey options;
               baseUrl :=
                 strip_trailing_slashes
                   (or_default (opt_baseUrl options) DEFAULT_BASE_URL);
               mode := or_default (opt_mode options) DEFAULT_MODE;
               batchInterval :=
                 or_default (opt_batchInterval options) DEFAULT_BATCH_INTERVAL;
               batchSize :=
                 or_default (opt_batchSize options) DEFAULT_BATCH_SIZE;
               maxRetries :=
                 or_default (opt_maxRetries options) DEFAULT_MAX_RETRIES;
               disabled := or_default (opt_disabled options) false;
               onError := opt_onError options |};
          _buffer := [];
          _flushTimer := None;
          _flushing := false;
          _shutdownCalled := false |}.

(** What the body of a 400/401 response parses to: [response.json()]
    rejects, or resolves to [null], or resolves to any other value, of which
    only [data.error] is read ([None] when it is [undefined] or [null],
    otherwise its rendering in a template string).  The endpoint gives
    [error] as a string; a body whose [error] has no rendering is outside
    the model. *)
Inductive JsonBody : Type :=
| JsonReject
| JsonNull
| JsonValue (error : option string).

Record Response : Type := {
  ok : bool;
  status : Z;
  json : JsonBody
}.

(** What reading [data.error] throws when [data] is [null] (the wording is
    V8's). *)
Definition null_property_TypeError : Error :=
  MkError "Cannot read properties of null (reading 'error')".

(** How a call of [fetch] settles.  A rejection carries the thrown value:
    an [Error] or, for anything else, its [String(...)].  The abort after
    [FETCH_TIMEOUT_MS] is one of the rejections. *)
Inductive FetchOutcome : Type :=
| Resolves (response : Response)
| Rejects (thrown : Error + string).

Inductive Effect : Type :=
| Fetch (url : string) (authorization : string) (body : list IngestEvent)
| Sleep (ms : Z)
| OnError (e : Error).

(** The dispatcher and the trace of what it did to the outside world. *)
Record St : Type := {
  client : Synquer;
  trace : list Effect
}.

Definition is_fetch (e : Effect) : bool :=
  match e with Fetch _ _ _ => true | _ => false end.

(** Number of calls of [fetch] made so far. *)
Definition fetch_count (t : list Effect) : nat :=
  List.length (filter is_fetch t).

(** The bodies of the calls of [fetch], oldest first. *)
Fixpoint fetch_bodies (t : list Effect) : list (list IngestEvent) :=
  match t with
  | [] => []
  | Fetch _ _ b :: t' => b :: fetch_bodies t'
  | _ :: t' => fetch_bodies t'
  end.

(** The errors the observer was called with, oldest first. *)
Fixpoint observed (t : list Effect) : list Error :=
  match t with
  | [] => []
  | OnError e :: t' => e :: observed t'
  | _ :: t' => observed t'
  end.

Definition emit (e : Effect) (s : St) : St :=
  {| client := client s; trace := (trace s ++ [e])%list |}.

Definition with_buffer (b : list IngestEvent) (c : Synquer) : Synquer :=
  {| _options := _options c; _buffer := b; _flushTimer := _flushTimer c;
     _flushing := _flushing c; _shutdownCalled := _shutdownCalled c |}.

Definition with_flushTimer (t : option Timer) (c : Synquer) : Synquer :=
  {| _options := _options c; _buffer := _buffer c; _flushTimer := t;
     _flushing := _flushing c; _shutdownCalled := _shutdownCalled c |}.

Definition with_flushing (b : bool) (c : Synquer) : Synquer :=
  {| _options := _options c; _buffer := _buffer c;
     _flushTimer := _flushTimer c;
     _flushing := b; _shutdownCalled := _shutdownCalled c |}.

Definition with_shutdownCalled (b : bool) (c : Synquer) : Synquer :=
  {| _options := _options c; _buffer := _buffer c;
     _flushTimer := _flushTimer c;
     _flushing := _flushing c; _shutdownCalled := b |}.

Definition on_client (f : Synquer -> Synquer) (s : St) : St :=
  {| client := f (client s); trace := trace s |}.

Section ClientMethods.

(** [net k] is how the k-th call of [fetch] settles. *)
Variable net : nat -> FetchOutcome.

(** The three ways one iteration of the retry loop ends: [return],
    [break] with [lastError] set, or falling out of the [try]/[catch]
    with [lastError] set. *)
Inductive Attempt : Type :=
| LoopReturn
| LoopBreak (lastError : Error)
| LoopNext (lastError : Error).

(** The [try]/[catch] of one iteration of the loop of [_send]. *)
Definition attempt_once (events : list IngestEvent) (s : St)
    : Attempt * St :=
  let o := _options (client s) in
  let url := baseUrl o ++ "/v1/events/batch" in
  let s' := emit (Fetch url ("Bearer " ++ apiKey o) events) s in
  match net (fetch_count (trace s)) with
  | Rejects (inl err) => (LoopNext err, s')
  | Rejects (inr str) => (LoopNext (MkError str), s')
  | Resolves response =>
      if ok response || (status response =? 207) then
        (LoopReturn, s')
      else if (status response =? 400) || (status response =? 401) then
        match json response with
        | JsonNull =>
            (* [data.error] on [null] throws inside the [try] *)
            (LoopNext null_property_TypeError, s')
        | JsonReject =>
            (LoopBreak
               (MkError ("Synquer API error " ++
                         string_of_Z (status response) ++ ": " ++
                         "Unknown error")),
             s')
        | JsonValue error =>
            (LoopBreak
               (MkError ("Synquer API error " ++
                         string_of_Z (status response) ++ ": " ++
                         or_default error "Unknown error")),
             s')
        end
      else
        (LoopNext
           (MkError ("Synquer API error " ++ string_of_Z (status response))),
         s')
  end.

(** How the loop of [_send] is left: by [return], or past its end with
    whatever [lastError] holds. *)
Inductive LoopExit : Type :=
| Returned
| Fell (lastError : option Error).

(** [for (let attempt = 0; attempt <= maxRetries; attempt++)], from the
    given value of [attempt] on.  [fuel] bounds the iterations;
    [_send] passes [maxRetries + 1], the number of values [attempt]
    can take. *)
Fixpoint send_loop (fuel : nat) (events : list IngestEvent) (attempt : Z)
    (lastError : option Error) (s : St) : LoopExit * St :=
  match fuel with
  | O => (Fell lastError, s)
  | Datatypes.S fuel' =>
      if attempt <=? maxRetries (_options (client s)) then
        match attempt_once events s with
        | (LoopReturn, s1) => (Returned, s1)
        | (LoopBreak e, s1) => (Fell (Some e), s1)
        | (LoopNext e, s1) =>
            let s2 :=
              if attempt <? maxRetries (_options (client s1)) then
                emit (Sleep (Z.min (1000 * 2 ^ attempt) 10000)) s1
              else s1 in
            send_loop fuel' events (attempt + 1) (Some e) s2
        end
      else (Fell lastError, s)
  end.

(** [_send(events)] *)
Definition _send (events : list IngestEvent) : M St unit :=
  fun s =>
    let o := _options (client s) in
    if disabled o || (Z.of_nat (List.length events) =? 0) then (Ok tt, s)
    else
      match send_loop (Z.to_nat (maxRetries o + 1)) events 0 None s with
      | (Returned, s') => (Ok tt, s')
      | (Fell None, s') => (Ok tt, s')
      | (Fell (Some lastError), s') =>
          match onError o with
          | Some f =>
              match f lastError with
              | Some thrown => (Throw thrown, emit (OnError lastError) s')
              | None => (Throw lastError, emit (OnError lastError) s')
              end
          | None => (Throw lastError, s')
          end
      end.

(** [flush()] *)
Definition flush : M St unit :=
  fun s =>
    if (Z.of_nat (List.length (_buffer (client s))) =? 0)
       || _flushing (client s)
    then (Ok tt, s)
    else
      let s1 := on_client (with_flushing true) s in
      (* const events = this._buffer.splice(0) *)
      let events := _buffer (client s1) in
      let s2 := on_client (with_buffer []) s1 in
      try_finally
        (try_catch
           (_send events)
           (fun _ =>
              modify (on_client (fun c =>
                with_buffer (events ++ _buffer c) c))))
        (on_client (with_flushing false))
        s2.

(** [flush] up to its [await]: [None] when it returns at the guard,
    otherwise the detached events. *)
Definition flush_begin (s : St) : option (list IngestEvent) * St :=
  if (Z.of_nat (List.length (_buffer (client s))) =? 0)
     || _flushing (client s)
  then (None, s)
  else
    (Some (_buffer (client s)),
     on_client (with_buffer []) (on_client (with_flushing true) s)).

(** [flush] from the moment [_send] has settled with [r]: the [catch] and
    the [finally]. *)
Definition flush_settle (events : list IngestEvent) (r : Res unit)
    (s : St) : Res unit * St :=
  match r with
  | Ok _ => (Ok tt, on_client (with_flushing false) s)
  | Throw _ =>
      (Ok tt,
       on_client (with_flushing false)
         (on_client (fun c => with_buffer (events ++ _buffer c) c) s))
  end.

(** [_ensureFlushTimer()] *)
Definition _ensureFlushTimer : M St unit :=
  fun s =>
    match _flushTimer (client s) with
    | Some _ => (Ok tt, s)
    | None =>
        if _shutdownCalled (client s) then (Ok tt, s)
        else
          (Ok tt,
           on_client
             (with_flushTimer
                (Some (Interval (batchInterval (_options (client s))))))
             s)
    end.

(** The callback of the interval timer: [this.flush().catch(() => {})] *)
Definition timer_callback : M St unit :=
  try_catch flush (fun _ => ret tt).

(** [shutdown()] *)
Definition shutdown : M St unit :=
  fun s =>
    if _shutdownCalled (client s) then (Ok tt, s)
    else
      let s1 := on_client (with_shutdownCalled true) s in
      let s2 :=
        match _flushTimer (client s1) with
        | Some _ => on_client (with_flushTimer None) s1
        | None => s1
        end in
      if 0 <? Z.of_nat (List.length (_buffer (client s2))) then flush s2
      else (Ok tt, s2).

(** The [sendFn] that [job(options)] closes over the client. *)
Definition sendFn (events : list IngestEvent) : M St unit :=
  fun s =>
    match mode (_options (client s)) with
    | per_job => try_catch (_send events) (fun _ => ret tt) s
    | batch =>
        ((modify (on_client (fun c =>
            with_buffer (_buffer c ++ events) c))) ;;
         _ensureFlushTimer ;;
         (fun s' =>
            if batchSize (_options (client s'))
                 <=? Z.of_nat (List.length (_buffer (client s')))
            then flush s'
            else (Ok tt, s')))
          s
    end.

(** [job(options)]; [id0] is what [crypto.randomUUID()] returned and
    [ticks0] the number of clock readings taken before. *)
Definition job (clock : nat -> Z) (id0 : string) (options : JobOptions)
    (ticks0 : nat) (s : St) : JState St :=
  new_Job clock id0 options ticks0 s.

(** What runs on the dispatcher, also while a flush is suspended at its
    [await]: completions of jobs, calls of [flush] and [shutdown] by the
    host, and the timer. *)
Inductive Op : Type :=
| OpSend (events : list IngestEvent)
| OpFlush
| OpShutdown
| OpTimer.

Definition op (o : Op) : M St unit :=
  match o with
  | OpSend events => sendFn events
  | OpFlush => flush
  | OpShutdown => shutdown
  | OpTimer =>
      fun s =>
        match _flushTimer (client s) with
        | Some _ => timer_callback s
        | None => (Ok tt, s)
        end
  end.

Fixpoint run_ops (os : list Op) (s : St) : St :=
  match os with
  | [] => s
  | o :: os' => run_ops os' (snd (op o s))
  end.

(** The events the operations hand to [sendFn], in order. *)
Fixpoint appended (os : list Op) : list IngestEvent :=
  match os with
  | [] => []
  | OpSend events :: os' => (events ++ appended os')%list
  | _ :: os' => appended os'
  end.

End ClientMethods.

(** The classification of a response by the loop of [_send]. *)
Definition success_response (r : Response) : bool :=
  ok r || (status r =? 207).

Definition terminal_status (r : Response) : bool :=
  negb (success_response r) && ((status r =? 400) || (status r =? 401)).

Definition retryable_status (r : Response) : bool :=
  negb (success_response r) && negb ((status r =? 400) || (status r =? 401)).

(** The failure recorded for a retryable response. *)
Definition retry_error (r : Response) : Error :=
  MkError ("Synquer API error " ++ string_of_Z (status r)).

(** The failure recorded for a 400/401 response whose body carries
    [error], or none. *)
Definition terminal_error (r : Response) (error : option string) : Error :=
  MkError ("Synquer API error " ++ string_of_Z (status r) ++ ": " ++
           or_default error "Unknown error").

(** [data.error] of a body that is not [null]. *)
Definition body_error (b : JsonBody) : option string :=
  match b with
  | JsonValue error => error
  | JsonReject | JsonNull => None
  end.

(** What a failed [_send] throws once the observer, if any, has been
    called with [lastError]. *)
Definition thrown_after_report (o : Options) (lastError : Error) : Error :=
  match onError o with
  | Some f => or_default (f lastError) lastError
  | None => lastError
  end.

(** The calls of the observer a failed [_send] adds. *)
Definition report (o : Options) (lastError : Error) : list Error :=
  match onError o with
  | Some _ => [lastError]
  | None => []
  end.

(* ------------------------------------------------------------------ *)
(** ** Sample scenarios (after tests/client.test.ts) *)

Definition sample_options (m : Mode) (size retries : Z)
    (obs : option Observer) : Options :=
  {| apiKey := "sk_dev_test";
     baseUrl := "http://localhost:3001";
     mode := m;
     batchInterval := 60000;
     batchSize := size;
     maxRetries := retries;
     disabled := false;
     onError := obs |}.

Definition sample_state (o : Options) (buffer : list IngestEvent) : St :=
  {| client := {| _options := o; _buffer := buffer; _flushTimer := None;
                  _flushing := false; _shutdownCalled := false |};
     trace := [] |}.

Definition sample_job_options : JobOptions :=
  {| jo_type := "test"; jo_entity := None; jo_externalId := None;
     jo_metadata := None |}.

Definition sample_event (job_id : string) (t : EventType) (ts : Z)
    : IngestEvent :=
  {| jobId := job_id; externalId := None; type := t; timestamp := ts;
     data := None |}.

(** The two events of a job that was started and then done. *)
Definition sample_job_events (job_id : string) (ts : Z) : list IngestEvent :=
  [sample_event job_id job_started ts; sample_event job_id job_done (ts + 1)].

Definition response_200 : Response :=
  {| ok := true; status := 200; json := JsonValue None |}.

Definition response_500 : Response :=
  {| ok := false; status := 500; json := JsonValue None |}.

Definition response_400 : Response :=
  {| ok := false; status := 400; json := JsonValue (Some "Validation error") |}.


(** A 400 whose body is the JSON literal [null]. *)
Definition response_400_null : Response :=
  {| ok := false; status := 400; json := JsonNull |}.

Definition always (r : Response) : nat -> FetchOutcome :=
  fun _ => Resolves r.

(** The first call of [fetch] rejects, the later ones get a 200. *)
Definition fails_once : nat -> FetchOutcome :=
  fun k =>
    match k with
    | O => Rejects (inl (MkError "Network error"))
    | _ => Resolves response_200
    end.

(** A clock that advances by one millisecond at each reading. *)
Definition sample_clock (k : nat) : Z := 1000 + Z.of_nat k.

(** An observer that records and returns normally. *)
Definition quiet_observer : Observer := fun _ => None.

(** Number of terminal events in a sequence. *)
Definition terminal_count (events : list IngestEvent) : nat :=
  List.length (filter (fun e => is_terminal (type e)) events).

(** What the job state machine maintains, seen through a spy on [sendFn]
    that started with an empty record: an open job has no terminal event
    and has sent nothing; a completed one has either exactly one terminal
    event and has sent once, its whole sequence, or no terminal event and
    has sent nothing. *)
Definition job_inv {S : Type} (st : JState (S * list (list IngestEvent)))
    : Prop :=
  if _completed (the_job st) then
    (terminal_count (_events (the_job st)) = 1%nat /\
     snd (ext st) = [_events (the_job st)]) \/
    (terminal_count (_events (the_job st)) = 0%nat /\
     snd (ext st) = [])
  else
    terminal_count (_events (the_job st)) = 0%nat /\
    snd (ext st) = [].

(** The first event is [e0], the timestamps are in non-decreasing
    order, and no later reading of the clock is below any of them. *)
Definition timeline_inv {S : Type} (clock : nat -> Z) (e0 : IngestEvent)
    (st : JState S) : Prop :=
  (exists rest, _events (the_job st) = e0 :: rest) /\
  StronglySorted Z.le (map timestamp (_events (the_job st))) /\
  Forall (fun e => forall k, (ticks st <= k)%nat -> timestamp e <= clock k)
    (_events (the_job st)).

(* ------------------------------------------------------------------ *)
(** ** Vocabulary of the further properties *)

(** [o[k]]: the value under a key, if the object has the key. *)
Fixpoint obj_get (k : string) (o : JsObject) : option JsValue :=
  match o with
  | [] => None
  | (k', v) :: o' => if String.eqb k k' then Some v else obj_get k o'
  end.

(** [data?.[k]] of an event. *)
Definition data_get (k : string) (e : IngestEvent) : option JsValue :=
  match data e with
  | Some d => obj_get k d
  | None => None
  end.

(** The kind of event a call appends to an open job. *)
Definition terminal_type (t : Terminal) : EventType :=
  match t with
  | TDone _ => job_done
  | TFailed _ => job_failed
  | TSkip _ => job_skipped
  | TReview _ => job_review
  end.

Definition call_type (c : Call) : EventType :=
  match c with
  | CEvent _ => job_event
  | CTerminal t => terminal_type t
  end.

(** Whether a terminal call on an open job gets as far as its event:
    [failed] does not when [String(error)] throws. *)
Definition builds_event (t : Terminal) : bool :=
  match t with
  | TFailed error =>
      match errorData error with
      | Ok _ => true
      | Throw _ => false
      end
  | TDone _ | TSkip _ | TReview _ => true
  end.

Definition call_builds_event (c : Call) : bool :=
  match c with
  | CEvent _ => true
  | CTerminal t => builds_event t
  end.

(** The calls of a sequence that append an event: those up to its first
    terminal call, and that one too when it builds its event. *)
Fixpoint effective (cs : list Call) : list Call :=
  match cs with
  | [] => []
  | CEvent a :: cs' => CEvent a :: effective cs'
  | CTerminal t :: _ => if builds_event t then [CTerminal t] else []
  end.

Definition is_terminal_call (c : Call) : bool :=
  match c with
  | CEvent _ => false
  | CTerminal _ => true
  end.

(** [done] and [failed] measure the duration, [skip] and [review] do
    not. *)
Definition measures_duration (t : Terminal) : bool :=
  match t with
  | TDone _ | TFailed _ => true
  | TSkip _ | TReview _ => false
  end.

(** [Math.min(1000 * Math.pow(2, attempt), 10_000)] *)
Definition backoff (attempt : Z) : Z :=
  Z.min (1000 * 2 ^ attempt) 10000.

(** [n] requests in a row from the attempt numbered [attempt] on, with the
    backoff between two of them and none after the last. *)
Fixpoint attempts_trace (request : Effect) (attempt : Z) (n : nat)
    : list Effect :=
  match n with
  | O => []
  | Datatypes.S m =>
      request ::
      match m with
      | O => []
      | Datatypes.S _ =>
          Sleep (backoff attempt) :: attempts_trace request (attempt + 1) m
      end
  end.

(** The request [_send] makes for a list of events. *)
Definition request_of (o : Options) (events : list IngestEvent) : Effect :=
  Fetch (baseUrl o ++ "/v1/events/batch") ("Bearer " ++ apiKey o) events.

(** The failure an attempt records when it ends without [return] or
    [break], so that the loop goes on: a rejection of [fetch], a status
    that is neither a success nor 400/401, or a 400/401 whose body is
    [null]. *)
Definition falls_through (o : FetchOutcome) : option Error :=
  match o with
  | Rejects (inl err) => Some err
  | Rejects (inr str) => Some (MkError str)
  | Resolves r =>
      if success_response r then None
      else if (status r =? 400) || (status r =? 401) then
        match json r with
        | JsonNull => Some null_property_TypeError
        | _ => None
        end
      else Some (retry_error r)
  end.

(** The [Error] a rejection of [fetch] is recorded as. *)
Definition rejection_error (thrown : Error + string) : Error :=
  match thrown with
  | inl err => err
  | inr str => MkError str
  end.

Definition is_sleep (e : Effect) : bool :=
  match e with Sleep _ => true | _ => false end.

(** The delays of the backoff sleeps in a trace, oldest first. *)
Fixpoint sleeps (t : list Effect) : list Z :=
  match t with
  | [] => []
  | Sleep ms :: t' => ms :: sleeps t'
  | _ :: t' => sleeps t'
  end.

(** All the events put on the wire so far, request after request. *)
Definition sent_events (t : list Effect) : list IngestEvent :=
  List.concat (fetch_bodies t).

(** A timer, when there is one, was armed in batch mode with the
    configured interval on a dispatcher that is not shut down. *)
Definition timer_ok (c : Synquer) : Prop :=
  match _flushTimer c with
  | Some tm =>
      tm = Interval (batchInterval (_options c)) /\
      mode (_options c) = batch /\
      _shutdownCalled c = false
  | None => True
  end.

(* ================================================================== *)
(** * Properties of the job *)

Open Scope list_scope.

Section JobProps.

Variable S : Type.
Variable clock : nat -> Z.
Variable sendFn : list IngestEvent -> M S unit.

Lemma terminal_count_app (l1 l2 : list IngestEvent) :
  terminal_count (l1 ++ l2) = (terminal_count l1 + terminal_count l2)%nat.
Proof.
  unfold terminal_count. now rewrite filter_app, length_app.
Qed.

(** A call on a completed job returns at its guard. *)
Lemma call_completed (c : Call) (st : JState S) :
  _completed (the_job st) = true ->
  call clock sendFn c st = (Ok tt, st).
Proof.
  intros Hc.
  destruct c as [a | [r | e | r | r]]; cbn;
    unfold event, done, failed, skip, review, bind, this; cbn;
    now rewrite Hc.
Qed.

(** Calls on a completed job change nothing. *)
Lemma run_calls_completed (cs : list Call) (st : JState S) :
  _completed (the_job st) = true ->
  run_calls clock sendFn cs st = st.
Proof.
  intros Hc. induction cs as [|c cs IH]; cbn; [reflexivity|].
  now rewrite call_completed.
Qed.

(** [event] on an open job appends one progress event stamped with the
    next reading of the clock. *)
Lemma event_open (a : string + EventOptions) (st : JState S) :
  _completed (the_job st) = false ->
  exists e,
    type e = job_event /\ timestamp e = clock (ticks st) /\
    event clock a st =
      (Ok tt,
       {| the_job := {| id := id (the_job st);
                            _events := _events (the_job st) ++ [e];
                            _completed := false |};
          ticks := Datatypes.S (ticks st);
          ext := ext st |}).
Proof.
  intros Hc. unfold event, bind, this, Date_now, events_push, modify.
  rewrite Hc. cbn.
  eexists. split; [|split]; cycle 2.
  - rewrite Hc. reflexivity.
  - reflexivity.
  - reflexivity.
Qed.

(** A terminal call on an open job that builds its event appends that
    terminal event, stamped with a reading of the clock, marks the job
    completed and hands the whole sequence to [sendFn], whose outcome is
    the call's. *)
Lemma terminal_open (t : Terminal) (st : JState S) :
  _completed (the_job st) = false ->
  builds_event t = true ->
  exists e k,
    type e = terminal_type t /\
    (ticks st <= k)%nat /\ timestamp e = clock k /\
    terminal clock sendFn t st =
      (fst (sendFn (_events (the_job st) ++ [e]) (ext st)),
       {| the_job := {| id := id (the_job st);
                            _events := _events (the_job st) ++ [e];
                            _completed := true |};
          ticks := Datatypes.S k;
          ext := snd (sendFn (_events (the_job st) ++ [e]) (ext st)) |}).
Proof.
  intros Hc Hb.
  assert (Hpair : forall (A B C : Type) (p : A * B) (f : A -> B -> C),
             (let (r, x) := p in f r x) = f (fst p) (snd p))
    by (intros A B C [r x] f; reflexivity).
  destruct t as [r | err | r | r]; cbn;
    unfold done, failed, skip, review, bind, this, startTs_of,
      set_completed, Date_now, events_push, call_sendFn, modify, ret, lift;
    rewrite Hc; cbn.
  2: { cbn in Hb. destruct (errorData err) as [d | x]; [|discriminate].
       destruct (_events (the_job st)) as [|e0 l] eqn:He; cbn;
       [ eexists; exists (Datatypes.S (ticks st))
       | eexists; exists (ticks st) ];
       (split; [|split; [|split]]; cycle 3;
        [ rewrite Hpair; reflexivity
        | reflexivity | lia | reflexivity ]). }
  1:
    destruct (_events (the_job st)) as [|e0 l] eqn:He; cbn;
    [ eexists; exists (Datatypes.S (ticks st))
    | eexists; exists (ticks st) ];
    (split; [|split; [|split]]; cycle 3;
     [ rewrite Hpair; reflexivity
     | reflexivity | lia | reflexivity ]).
  all:
    eexists; exists (ticks st);
    (split; [|split; [|split]]; cycle 3;
     [ rewrite Hpair; reflexivity
     | reflexivity | lia | reflexivity ]).
Qed.

(** A terminal call on an open job that does not build its event is a
    [failed] whose [String(error)] throws: the call rejects with what was
    thrown, having marked the job completed and read the clock, and
    neither an event is appended nor [sendFn] called. *)
Lemma terminal_throws (t : Terminal) (st : JState S) :
  _completed (the_job st) = false ->
  builds_event t = false ->
  exists error x k,
    t = TFailed error /\ errorData error = Throw x /\
    (ticks st <= k)%nat /\
    terminal clock sendFn t st =
      (Throw x,
       {| the_job := {| id := id (the_job st);
                            _events := _events (the_job st);
                            _completed := true |};
          ticks := Datatypes.S k;
          ext := ext st |}).
Proof.
  intros Hc Hb.
  destruct t as [r | err | r | r]; try discriminate.
  cbn in Hb. destruct (errorData err) as [d | x] eqn:Hd; [discriminate|].
  exists err, x.
  cbn; unfold failed, bind, this, startTs_of, set_completed, Date_now,
    modify, ret, lift; rewrite Hc, Hd; cbn.
  destruct (_events (the_job st)) as [|e0 l]; cbn;
    [ exists (Datatypes.S (ticks st)) | exists (ticks st) ];
    (split; [reflexivity|]; split; [reflexivity|];
     split; [lia | reflexivity]).
Qed.

Lemma terminal_type_is_terminal (t : Terminal) :
  is_terminal (terminal_type t) = true.
Proof.
  now destruct t.
Qed.

End JobProps.

Section JobSpy.

Variable S : Type.
Variable clock : nat -> Z.
Variable sendFn : list IngestEvent -> M S unit.

Lemma spy_log (events : list IngestEvent) (x : S * list (list IngestEvent)) :
  snd (snd (spy sendFn events x)) = snd x ++ [events].
Proof.
  unfold spy. destruct (sendFn events (fst x)) as [r y]. reflexivity.
Qed.

Lemma job_inv_new (id0 : string) (options : JobOptions) (ticks0 : nat)
    (ext0 : S) :
  job_inv (new_Job clock id0 options ticks0 (ext0, @nil (list IngestEvent))).
Proof.
  unfold job_inv. cbn. split; reflexivity.
Qed.

Lemma job_inv_call (c : Call) (st : JState (S * list (list IngestEvent))) :
  job_inv st -> job_inv (snd (call clock (spy sendFn) c st)).
Proof.
  intros Hinv.
  destruct (_completed (the_job st)) eqn:Hc.
  - now rewrite call_completed.
  - unfold job_inv in Hinv. rewrite Hc in Hinv. destruct Hinv as [Hn Hlog].
    destruct c as [a | t]; cbn [call].
    + destruct (event_open clock a st Hc) as (e & Hty & _ & ->).
      unfold job_inv. cbn [snd the_job _events _completed ext].
      rewrite terminal_count_app, Hn. unfold terminal_count. cbn.
      rewrite Hty. cbn. now split.
    + destruct (builds_event t) eqn:Hb.
      * destruct (terminal_open clock (spy sendFn) t st Hc Hb)
          as (e & k & Hty & _ & _ & ->).
        unfold job_inv. cbn [snd the_job _events _completed ext].
        left. rewrite terminal_count_app, Hn, spy_log, Hlog.
        unfold terminal_count. cbn.
        rewrite Hty, terminal_type_is_terminal. cbn. now split.
      * destruct (terminal_throws clock (spy sendFn) t st Hc Hb)
          as (err & x & k & _ & _ & _ & ->).
        unfold job_inv. cbn [snd the_job _events _completed ext].
        right. now split.
Qed.

Lemma job_inv_run (cs : list Call) (st : JState (S * list (list IngestEvent))) :
  job_inv st -> job_inv (run_calls clock (spy sendFn) cs st).
Proof.
  revert st. induction cs as [|c cs IH]; intros st Hinv; cbn.
  - exact Hinv.
  - apply IH. now apply job_inv_call.
Qed.

Lemma terminal_completes (t : Terminal)
    (st : JState (S * list (list IngestEvent))) :
  _completed (the_job (snd (call clock (spy sendFn) (CTerminal t) st)))
  = true.
Proof.
  destruct (_completed (the_job st)) eqn:Hc.
  - now rewrite call_completed.
  - cbn [call]. destruct (builds_event t) eqn:Hb.
    + now destruct (terminal_open clock (spy sendFn) t st Hc Hb)
        as (e & k & _ & _ & _ & ->).
    + now destruct (terminal_throws clock (spy sendFn) t st Hc Hb)
        as (err & x & k & _ & _ & _ & ->).
Qed.

End JobSpy.

Section JobTimeline.

Variable S : Type.
Variable clock : nat -> Z.
Variable sendFn : list IngestEvent -> M S unit.

Hypothesis clock_mono : forall i j, (i <= j)%nat -> clock i <= clock j.

Lemma StronglySorted_snoc (l : list Z) (a : Z) :
  StronglySorted Z.le l -> Forall (fun x => x <= a) l ->
  StronglySorted Z.le (l ++ [a]).
Proof.
  induction 1 as [|x l Hs IH Hx]; intros Hall; cbn.
  - repeat constructor.
  - inversion Hall as [|? ? Hxa Hla]; subst.
    constructor; [now apply IH|].
    apply Forall_app. split; [exact Hx|]. now constructor.
Qed.

(** Appending an event stamped with the reading [k], none of the earlier
    ones having been taken later, keeps the time line. *)
Lemma timeline_push (e0 : IngestEvent) (j : Job) (e : IngestEvent)
    (n k : nat) (x x' : S) (b : bool) :
  timeline_inv clock e0 {| the_job := j; ticks := n; ext := x |} ->
  (n <= k)%nat -> timestamp e = clock k ->
  timeline_inv clock e0
    {| the_job := {| id := id j; _events := _events j ++ [e];
                         _completed := b |};
       ticks := Datatypes.S k; ext := x' |}.
Proof.
  intros ((rest & Hev) & Hsorted & Hall) Hk Hts.
  unfold timeline_inv. cbn [the_job _events ticks] in *. repeat split.
  - exists (rest ++ [e]). now rewrite Hev.
  - rewrite map_app. cbn. apply StronglySorted_snoc; [exact Hsorted|].
    rewrite Forall_map. rewrite Hts.
    eapply Forall_impl; [|exact Hall]. cbn. intros a Ha. now apply Ha.
  - apply Forall_app. split.
    + eapply Forall_impl; [|exact Hall]. cbn. intros a Ha k' Hk'.
      apply Ha. lia.
    + constructor; [|constructor]. intros k' Hk'. rewrite Hts.
      apply clock_mono. lia.
Qed.

Lemma timeline_new (id0 : string) (options : JobOptions) (ticks0 : nat)
    (ext0 : S) :
  exists e0,
    _events (the_job (new_Job clock id0 options ticks0 ext0)) = [e0] /\
    type e0 = job_started /\
    timeline_inv clock e0 (new_Job clock id0 options ticks0 ext0).
Proof.
  eexists. split; [reflexivity|]. split; [reflexivity|].
  unfold timeline_inv. cbn. repeat split.
  - now exists [].
  - repeat constructor.
  - constructor; [|constructor]. cbn. intros k Hk. apply clock_mono. lia.
Qed.

Lemma timeline_call (e0 : IngestEvent) (c : Call) (st : JState S) :
  timeline_inv clock e0 st ->
  timeline_inv clock e0 (snd (call clock sendFn c st)).
Proof.
  intros Hinv.
  destruct (_completed (the_job st)) eqn:Hc.
  - now rewrite call_completed.
  - destruct st as [j n x]. cbn in Hc.
    destruct c as [a | t]; cbn [call].
    + destruct (event_open clock a {| the_job := j; ticks := n; ext := x |} Hc)
        as (e & _ & Hts & ->).
      cbn. eapply timeline_push; eauto.
    + destruct (builds_event t) eqn:Hb.
      * destruct (terminal_open clock sendFn t
                    {| the_job := j; ticks := n; ext := x |} Hc Hb)
          as (e & k & _ & Hk & Hts & ->).
        cbn. eapply timeline_push; eauto.
      * destruct (terminal_throws clock sendFn t
                    {| the_job := j; ticks := n; ext := x |} Hc Hb)
          as (err & y & k & _ & _ & Hk & ->).
        cbn. cbn in Hk. destruct Hinv as (Hfirst & Hsorted & Hall).
        unfold timeline_inv. cbn [the_job _events ticks] in *.
        split; [exact Hfirst|]. split; [exact Hsorted|].
        eapply Forall_impl; [|exact Hall]. cbn. intros a Ha k' Hk'.
        apply Ha. lia.
Qed.

Lemma timeline_run (e0 : IngestEvent) (cs : list Call) (st : JState S) :
  timeline_inv clock e0 st ->
  timeline_inv clock e0 (run_calls clock sendFn cs st).
Proof.
  revert st. induction cs as [|c cs IH]; intros st Hinv; cbn.
  - exact Hinv.
  - apply IH. now apply timeline_call.
Qed.

End JobTimeline.

(** C5.  Whatever calls the host makes on a job, in whatever order and
    with whatever send function, the job never holds more than one
    terminal event and the send function is never called more than once,
    and then with the whole accumulated sequence; every call on a
    completed job returns normally and changes nothing, and any terminal
    call completes an open job.  But a completed
    job need not have been sent: [failed(error)] on an open job, with an
    [error] whose [String(error)] throws, rejects with what was thrown and
    leaves the job completed with no terminal event and no call of the
    send function, and no later call makes up for it. *)
Theorem failed_throw_completes_without_sending :
  forall (S : Type) (clock : nat -> Z)
         (sendFn : list IngestEvent -> M S unit)
         (id0 : string) (options : JobOptions) (ticks0 : nat) (ext0 : S)
         (cs : list Call),
    let st :=
      run_calls clock (spy sendFn) cs
        (new_Job clock id0 options ticks0 (ext0, [])) in
    (if _completed (the_job st) then
       ((terminal_count (_events (the_job st)) = 1%nat /\
         snd (ext st) = [_events (the_job st)]) \/
        (terminal_count (_events (the_job st)) = 0%nat /\
         snd (ext st) = [])) /\
       (forall c, call clock (spy sendFn) c st = (Ok tt, st))
     else
       terminal_count (_events (the_job st)) = 0%nat /\
       snd (ext st) = [] /\
       (forall t,
           _completed
             (the_job (snd (call clock (spy sendFn) (CTerminal t) st)))
           = true)) /\
    (forall (error : JsValue) (x : Error) (later : list Call),
        _completed (the_job st) = false ->
        errorData error = Throw x ->
        let r := failed clock (spy sendFn) error st in
        let st' := run_calls clock (spy sendFn) later (snd r) in
        fst r = Throw x /\
        _completed (the_job st') = true /\
        _events (the_job st') = _events (the_job st) /\
        terminal_count (_events (the_job st')) = 0%nat /\
        snd (ext st') = []).
Proof.
  intros S clock sendFn id0 options ticks0 ext0 cs st.
  assert (Hinv : job_inv st)
    by (apply job_inv_run, job_inv_new).
  unfold job_inv in Hinv.
  split.
  - destruct (_completed (the_job st)) eqn:Hc.
    + split; [exact Hinv|]. intros c. now apply call_completed.
    + destruct Hinv as [Hn Hlog]. split; [exact Hn|]. split; [exact Hlog|].
      intros t. apply terminal_completes.
  - intros error x later Hc Hthrow r st'.
    rewrite Hc in Hinv. destruct Hinv as [Hn Hlog].
    assert (Hb : builds_event (TFailed error) = false)
      by (cbn; now rewrite Hthrow).
    destruct (terminal_throws clock (spy sendFn) (TFailed error) st Hc Hb)
      as (err & y & k & Herr & Hy & _ & Hrun).
    injection Herr as <-. rewrite Hthrow in Hy. injection Hy as <-.
    cbn [terminal] in Hrun. unfold st', r. rewrite Hrun. cbn [fst snd].
    rewrite run_calls_completed by reflexivity.
    cbn [the_job _events _completed ext]. auto.
Qed.

(** The run of C5 that loses a job: [failed({ toString: 5 })] on a new
    job rejects with the [TypeError], and a [done] after it is ignored;
    the job is completed, its only event is the started one and the send
    function was never called. *)
Lemma failed_throw_completes_without_sending_witness :
  let st := new_Job sample_clock "a" sample_job_options 0 (tt, []) in
  let send := spy (fun _ : list IngestEvent => @ret unit unit tt) in
  let r := failed sample_clock send (JObj [("toString", JNum 5)]) st in
  let st' :=
    run_calls sample_clock send [CTerminal (TDone JUndefined)] (snd r) in
  fst r = Throw (MkError "Cannot convert object to primitive value") /\
  _completed (the_job st') = true /\
  map type (_events (the_job st')) = [job_started] /\
  snd (ext st') = [].
Proof.
  intros st send r st'.
  destruct (@failed_throw_completes_without_sending unit sample_clock
              (fun _ => ret tt) "a" sample_job_options 0%nat tt [])
    as [_ Hlost].
  destruct (Hlost (JObj [("toString", JNum 5)])
              (MkError "Cannot convert object to primitive value")
              [CTerminal (TDone JUndefined)] eq_refl eq_refl)
    as (Hres & Hc & Hev & _ & Hlog).
  split; [exact Hres|]. split; [exact Hc|]. split; [|exact Hlog].
  exact (eq_trans (f_equal (map type) Hev) eq_refl).
Defined.

(** C9.  With a clock that never goes back, after any sequence of calls on
    a job its event sequence is non-empty, its first element is the started
    event that the constructor pushed, and the timestamps are in
    non-decreasing order. *)
Theorem job_started_first_timestamps_sorted :
  forall (S : Type) (clock : nat -> Z)
         (sendFn : list IngestEvent -> M S unit)
         (id0 : string) (options : JobOptions) (ticks0 : nat) (ext0 : S)
         (cs : list Call),
    (forall i j, (i <= j)%nat -> clock i <= clock j) ->
    let st :=
      run_calls clock sendFn cs (new_Job clock id0 options ticks0 ext0) in
    (exists e rest,
        _events (the_job (new_Job clock id0 options ticks0 ext0)) = [e] /\
        type e = job_started /\
        _events (the_job st) = e :: rest) /\
    StronglySorted Z.le (map timestamp (_events (the_job st))).
Proof.
  intros S clock sendFn id0 options ticks0 ext0 cs Hmono st.
  destruct (@timeline_new S clock Hmono id0 options ticks0 ext0)
    as (e0 & Hnew & Hty & Hinv).
  apply (@timeline_run S clock sendFn Hmono e0 cs) in Hinv.
  destruct Hinv as ((rest & Hev) & Hsorted & _).
  split; [|exact Hsorted].
  exists e0, rest. auto.
Qed.

(** A run of C9 with a clock that advances at each reading: a progress
    event, [done], and a late progress event that is ignored. *)
Lemma job_started_first_timestamps_sorted_witness :
  let st :=
    run_calls sample_clock (fun _ : list IngestEvent => @ret unit unit tt)
      [CEvent (inl "Step 1"); CTerminal (TDone JUndefined);
       CEvent (inl "Should be ignored")]
      (new_Job sample_clock "a" sample_job_options 0 tt) in
  map type (_events (the_job st)) = [job_started; job_event; job_done] /\
  StronglySorted Z.le (map timestamp (_events (the_job st))).
Proof.
  intros st.
  destruct (@job_started_first_timestamps_sorted unit sample_clock
              (fun _ => ret tt) "a" sample_job_options 0%nat tt
              [CEvent (inl "Step 1"); CTerminal (TDone JUndefined);
               CEvent (inl "Should be ignored")]
              ltac:(unfold sample_clock; intros; lia))
    as [_ Hsorted].
  split; [reflexivity | exact Hsorted].
Defined.

(** [String(v)] on some values: the elements of an array joined, [null]
    giving nothing; a plain object; an object and an array that cannot be
    converted; an [Error] without a message; numbers from [10^21] on and
    beyond the integers that a double holds exactly. *)
Example String_of_values :
  js_String (JArr [JNum 1; JNull; JStr "a"; JArr [JNum 2; JNum 3]])
  = Ok "1,,a,2,3" /\
  js_String (JObj [("a", JNum 1)]) = Ok "[object Object]" /\
  js_String (JObj [("toString", JNum 5)]) = Throw to_primitive_TypeError /\
  js_String (JArr [JNum 1; JObj [("toString", JNull)]])
  = Throw to_primitive_TypeError /\
  js_String (JArr [JErrorObj "" None; JErrorObj "x" None])
  = Ok "Error,Error: x" /\
  js_String (JNum (-42)) = Ok "-42" /\
  js_String (JNum (10 ^ 21)) = Ok "1e+21" /\
  js_String (JNum (2 ^ 64)) = Ok "18446744073709552000" /\
  js_String (JNum (2 ^ 70)) = Ok "1.1805916207174113e+21".
Proof.
  vm_compute. repeat split; reflexivity.
Qed.

(** What [failed] stores for an [Error], for a string and for another
    value, after the tests 'marks job as failed with Error' and 'marks job
    as failed with string'. *)
Example errorData_of_values :
  errorData (JErrorObj "Connection timeout" (Some "at sync"))
  = Ok [("message", JStr "Connection timeout"); ("stack", JStr "at sync")] /\
  errorData (JStr "Something went wrong")
  = Ok [("message", JStr "Something went wrong")] /\
  errorData (JNum 404) = Ok [("message", JStr "404")] /\
  errorData (JObj [("code", JNum 1)])
  = Ok [("message", JStr "[object Object]")] /\
  errorData (JObj [("toString", JNum 5)]) = Throw to_primitive_TypeError.
Proof.
  vm_compute. repeat split; reflexivity.
Qed.

(** The test 'ignores events after completion': after [done], an [event]
    and a [failed] change nothing, and the send function was called once,
    with the started and the done event. *)
Example ignores_calls_after_completion :
  let st :=
    run_calls sample_clock
      (spy (fun _ : list IngestEvent => @ret unit unit tt))
      [CTerminal (TDone JUndefined); CEvent (inl "Should be ignored");
       CTerminal (TFailed (JStr "Should also be ignored"))]
      (new_Job sample_clock "a" sample_job_options 0 (tt, [])) in
  map type (_events (the_job st)) = [job_started; job_done] /\
  map (map type) (snd (ext st)) = [[job_started; job_done]].
Proof.
  cbv zeta. split; reflexivity.
Qed.

(* ================================================================== *)
(** * Properties of the client *)

Section TraceFacts.

Lemma fetch_bodies_app (t1 t2 : list Effect) :
  fetch_bodies (t1 ++ t2) = fetch_bodies t1 ++ fetch_bodies t2.
Proof.
  induction t1 as [|e t1 IH]; cbn; [reflexivity|].
  destruct e; cbn; now rewrite IH.
Qed.

Lemma observed_app (t1 t2 : list Effect) :
  observed (t1 ++ t2) = observed t1 ++ observed t2.
Proof.
  induction t1 as [|e t1 IH]; cbn; [reflexivity|].
  destruct e; cbn; now rewrite IH.
Qed.

Lemma fetch_count_bodies (t : list Effect) :
  fetch_count t = List.length (fetch_bodies t).
Proof.
  unfold fetch_count.
  induction t as [|e t IH]; cbn; [reflexivity|].
  destruct e; cbn; now rewrite IH.
Qed.

Lemma fetch_count_app (t1 t2 : list Effect) :
  fetch_count (t1 ++ t2) = (fetch_count t1 + fetch_count t2)%nat.
Proof.
  unfold fetch_count. now rewrite filter_app, length_app.
Qed.

End TraceFacts.

Section SendProps.

Variable net : nat -> FetchOutcome.

Lemma attempt_once_state (events : list IngestEvent) (s : St) :
  snd (attempt_once net events s) =
  emit (Fetch (baseUrl (_options (client s)) ++ "/v1/events/batch")
          ("Bearer " ++ apiKey (_options (client s))) events) s.
Proof.
  unfold attempt_once.
  destruct (net (fetch_count (trace s))) as [r | [err | str]];
    try reflexivity.
  destruct (ok r || (status r =? 207)); [reflexivity|].
  destruct ((status r =? 400) || (status r =? 401)); [|reflexivity].
  now destruct (json r).
Qed.

(** The loop of [_send] never touches the dispatcher, and only adds to
    the trace. *)
Lemma send_loop_frame (fuel : nat) (events : list IngestEvent) :
  forall (attempt : Z) (last : option Error) (s : St),
    client (snd (send_loop net fuel events attempt last s)) = client s /\
    exists t,
      trace (snd (send_loop net fuel events attempt last s))
      = trace s ++ t /\ observed t = [].
Proof.
  induction fuel as [|fuel IH]; intros attempt last s; cbn.
  - split; [reflexivity|]. exists []. now rewrite app_nil_r.
  - destruct (attempt <=? maxRetries (_options (client s))).
    2: { split; [reflexivity|]. exists []. now rewrite app_nil_r. }
    pose proof (attempt_once_state events s) as Hst.
    destruct (attempt_once net events s) as [[| e | e] s1];
      cbn in Hst; subst s1; cbn.
    + split; [reflexivity|]. eexists. split; reflexivity.
    + split; [reflexivity|]. eexists. split; reflexivity.
    + match goal with
      | |- context [send_loop net fuel events ?a ?l ?s2] =>
          destruct (IH a l s2) as (Hc & t & Ht & Hobs)
      end.
      rewrite Hc, Ht.
      destruct (attempt <? maxRetries (_options (client s))); cbn.
      * split; [reflexivity|]. eexists.
        rewrite <- !app_assoc. split; [reflexivity|].
        cbn. exact Hobs.
      * split; [reflexivity|]. eexists.
        rewrite <- !app_assoc. split; [reflexivity|].
        cbn. exact Hobs.
Qed.

Lemma send_client (events : list IngestEvent) (s : St) :
  client (snd (_send net events s)) = client s.
Proof.
  unfold _send.
  destruct (disabled _ || _); [reflexivity|].
  pose proof (send_loop_frame
                (Z.to_nat (maxRetries (_options (client s)) + 1))
                events 0 None s) as [Hc _].
  destruct (send_loop net _ events 0 None s) as [[|[e|]] s']; cbn in *;
    try exact Hc.
  destruct (onError _) as [f|]; [|exact Hc].
  destruct (f e); exact Hc.
Qed.

(** The fuel [_send] gives the loop is enough: more would change
    nothing, so the loop always ends by its own test. *)
Lemma send_loop_fuel_enough (events : list IngestEvent) (fuel : nat) :
  forall (attempt : Z) (last : option Error) (s : St),
    (Z.to_nat (maxRetries (_options (client s)) + 1 - attempt) <= fuel)%nat ->
    send_loop net fuel events attempt last s =
    send_loop net
      (Z.to_nat (maxRetries (_options (client s)) + 1 - attempt))
      events attempt last s.
Proof.
  induction fuel as [|fuel IH]; intros attempt last s Hfuel.
  - replace (Z.to_nat _) with 0%nat by lia. reflexivity.
  - destruct (Z.leb_spec attempt (maxRetries (_options (client s))))
      as [Hle | Hgt].
    + replace (Z.to_nat (maxRetries (_options (client s)) + 1 - attempt))
        with (Datatypes.S
                (Z.to_nat (maxRetries (_options (client s)) + 1
                           - (attempt + 1)))) in * by lia.
      cbn [send_loop].
      pose proof (attempt_once_state events s) as Hst.
      destruct (attempt_once net events s) as [[| e | e] s1];
        cbn in Hst; subst s1; try reflexivity.
      destruct (attempt <=? maxRetries (_options (client s)));
        [|reflexivity].
      cbn [emit client].
      destruct (attempt <? maxRetries (_options (client s)));
        (rewrite IH; [reflexivity | cbn [emit client]; lia]).
    + replace (Z.to_nat _) with 0%nat by lia.
      cbn [send_loop].
      destruct (Z.leb_spec attempt (maxRetries (_options (client s))));
        [lia | reflexivity].
Qed.

(** When every response is retryable the loop uses up all its
    iterations: one call of [fetch] each, always with the same body, and
    it ends holding the failure of the last response. *)
Lemma send_loop_retryable (resp : nat -> Response)
    (events : list IngestEvent) (fuel : nat) :
  net = (fun k => Resolves (resp k)) ->
  (forall k, retryable_status (resp k) = true) ->
  forall (attempt : Z) (last : option Error) (s : St),
    Z.of_nat fuel = maxRetries (_options (client s)) + 1 - attempt ->
    exists s',
      send_loop net fuel events attempt last s =
        (Fell (match fuel with
               | O => last
               | Datatypes.S n =>
                   Some (retry_error
                           (resp (fetch_count (trace s) + n)%nat))
               end), s') /\
      client s' = client s /\
      fetch_bodies (trace s') =
        fetch_bodies (trace s) ++ repeat events fuel /\
      observed (trace s') = observed (trace s).
Proof.
  intros Hnet Hretry.
  induction fuel as [|fuel IH]; intros attempt last s Hfuel.
  - exists s. cbn. rewrite app_nil_r. auto.
  - cbn [send_loop].
    destruct (Z.leb_spec attempt (maxRetries (_options (client s))));
      [|lia].
    assert (Hk : net (fetch_count (trace s))
                 = Resolves (resp (fetch_count (trace s))))
      by now rewrite Hnet.
    unfold attempt_once. rewrite Hk.
    specialize (Hretry (fetch_count (trace s))).
    unfold retryable_status, success_response in Hretry.
    apply andb_prop in Hretry. destruct Hretry as [Hok Hst].
    apply negb_true_iff in Hok, Hst. rewrite Hok, Hst.
    match goal with
    | |- context [send_loop net fuel events ?a ?l ?x] =>
        set (s2 := x);
        assert (Hs2 : client s2 = client s /\
                      fetch_count (trace s2)
                      = Datatypes.S (fetch_count (trace s)) /\
                      fetch_bodies (trace s2)
                      = fetch_bodies (trace s) ++ [events] /\
                      observed (trace s2) = observed (trace s));
        [| destruct (IH a l s2) as (s' & Hloop & Hc & Hb & Ho) ]
    end.
    { subst s2.
      destruct (attempt <? _); cbn [emit client trace];
        rewrite ?fetch_count_app, ?fetch_bodies_app, ?observed_app;
        cbn; rewrite ?app_nil_r; repeat split;
        try reflexivity; lia. }
    { destruct Hs2 as [-> _]. rewrite Nat2Z.inj_succ in Hfuel. lia. }
    destruct Hs2 as (Hc2 & Hn2 & Hb2 & Ho2).
    exists s'. rewrite Hloop. split; [|split; [|split]].
    + destruct fuel as [|n].
      * now rewrite Nat.add_0_r.
      * rewrite Hn2.
        now replace (Datatypes.S (fetch_count (trace s)) + n)%nat
          with (fetch_count (trace s) + Datatypes.S n)%nat by lia.
    + now rewrite Hc.
    + rewrite Hb, Hb2, <- app_assoc. reflexivity.
    + now rewrite Ho.
Qed.

End SendProps.

(** The step from the transport alone to the dispatcher. *)
Section SendOutcomes.

Variable net : nat -> FetchOutcome.

(** A 400/401 whose body is not [null] ends [_send] after that one
    call of [fetch]: the observer, if any, is called with the failure,
    which carries the body's [error], and [_send] throws. *)
Lemma send_terminal_single_attempt (events : list IngestEvent) (s : St)
    (r : Response) :
  disabled (_options (client s)) = false ->
  events <> [] ->
  0 <= maxRetries (_options (client s)) ->
  net (fetch_count (trace s)) = Resolves r ->
  terminal_status r = true ->
  json r <> JsonNull ->
  let o := _options (client s) in
  let e := terminal_error r (body_error (json r)) in
  _send net events s =
    (Throw (thrown_after_report o e),
     {| client := client s;
        trace := trace s ++
                 Fetch (baseUrl o ++ "/v1/events/batch")
                   ("Bearer " ++ apiKey o) events
                 :: map OnError (report o e) |}).
Proof.
  intros Hen Hev Hretries Hnet Hterm Hbody. cbv zeta.
  unfold _send. cbv beta zeta. rewrite Hen.
  destruct events as [|ev events']; [congruence|].
  cbn [orb List.length].
  replace (Z.of_nat (Datatypes.S (List.length events')) =? 0) with false
    by (symmetry; apply Z.eqb_neq; lia).
  destruct (Z.to_nat (maxRetries (_options (client s)) + 1))
    as [|fuel] eqn:Hfuel; [lia|].
  cbn [send_loop].
  destruct (Z.leb_spec 0 (maxRetries (_options (client s)))); [|lia].
  unfold attempt_once. rewrite Hnet.
  unfold terminal_status, success_response in Hterm.
  apply andb_prop in Hterm. destruct Hterm as [Hok Hst].
  apply negb_true_iff in Hok. rewrite Hok, Hst.
  unfold thrown_after_report, report, terminal_error, body_error.
  destruct (json r) as [| | error]; [|congruence|];
    destruct (onError (_options (client s))) as [f|]; cbn [map];
    try (destruct (f _)); unfold emit; cbn [or_default client trace];
    rewrite <- ?app_assoc; reflexivity.
Qed.

End SendOutcomes.

(** C3.  On an enabled client with [maxRetries = N >= 0], sending a
    non-empty list of events over a transport that answers every request
    with a retryable status makes exactly [N + 1] calls of [fetch], each
    carrying the events, and then reports the failure of the last response:
    to the observer when there is one, and by throwing. *)
Theorem send_retryable_makes_all_attempts :
  forall (resp : nat -> Response) (events : list IngestEvent) (s : St)
         (N : Z),
    maxRetries (_options (client s)) = N ->
    0 <= N ->
    disabled (_options (client s)) = false ->
    events <> [] ->
    (forall k, retryable_status (resp k) = true) ->
    let net := fun k => Resolves (resp k) in
    let lastError :=
      retry_error (resp (fetch_count (trace s) + Z.to_nat N)%nat) in
    let r := _send net events s in
    fetch_count (trace (snd r))
    = (fetch_count (trace s) + Z.to_nat (N + 1))%nat /\
    fetch_bodies (trace (snd r))
    = fetch_bodies (trace s) ++ repeat events (Z.to_nat (N + 1)) /\
    observed (trace (snd r))
    = observed (trace s) ++ report (_options (client s)) lastError /\
    fst r = Throw (thrown_after_report (_options (client s)) lastError).
Proof.
  intros resp events s N HN Hpos Hen Hev Hretry net lastError r.
  subst r. unfold _send. cbv beta zeta. rewrite Hen, HN.
  destruct events as [|ev events']; [congruence|].
  cbn [orb List.length].
  replace (Z.of_nat (Datatypes.S (List.length events')) =? 0) with false
    by (symmetry; apply Z.eqb_neq; lia).
  destruct (@send_loop_retryable net resp (ev :: events')
              (Z.to_nat (N + 1)) eq_refl Hretry 0 None s)
    as (s' & Hloop & Hc & Hb & Ho); [lia|].
  rewrite Hloop.
  replace (Z.to_nat (N + 1)) with (Datatypes.S (Z.to_nat N)) in * by lia.
  fold lastError.
  assert (Hcount : fetch_count (trace s')
                   = (fetch_count (trace s) + Datatypes.S (Z.to_nat N))%nat).
  { rewrite !fetch_count_bodies, Hb, length_app, repeat_length.
    reflexivity. }
  unfold report, thrown_after_report.
  destruct (onError (_options (client s))) as [f|].
  - destruct (f lastError) as [thrown|]; cbn [fst snd emit trace or_default];
      rewrite fetch_count_app, fetch_bodies_app, observed_app, Hcount, Hb, Ho;
      cbn; rewrite Nat.add_0_r, app_nil_r; auto.
  - cbn [fst snd]. rewrite Hcount, Hb, Ho, app_nil_r. auto.
Qed.

(** A run of C3: [maxRetries = 1] and a transport that always answers 500
    (the test 'calls onError after retries exhausted'). *)
Lemma send_retryable_makes_all_attempts_witness :
  let s := sample_state (sample_options per_job 100 1 (Some quiet_observer))
             [] in
  let r := _send (always response_500) (sample_job_events "a" 0) s in
  fetch_count (trace (snd r)) = 2%nat /\
  observed (trace (snd r)) = [MkError "Synquer API error 500"] /\
  fst r = Throw (MkError "Synquer API error 500").
Proof.
  destruct (@send_retryable_makes_all_attempts
              (fun _ => response_500) (sample_job_events "a" 0)
              (sample_state
                 (sample_options per_job 100 1 (Some quiet_observer)) [])
              1 eq_refl ltac:(lia) eq_refl ltac:(discriminate)
              (fun _ => eq_refl))
    as (Hcount & _ & Hobs & Hres).
  intros s r. split; [exact Hcount | split; [exact Hobs | exact Hres]].
Defined.

(** C4, where the code departs from it.  With [maxRetries = 3], a
    transport that answers every request with a 400 whose body is the JSON
    literal [null] is called four times, not once: reading [data.error]
    throws inside the [try], the [catch] records that as an ordinary
    failure and the loop goes on; the failure finally reported is not the
    API error. *)
Theorem send_400_null_body_is_retried :
  let s := sample_state (sample_options per_job 100 3 (Some quiet_observer))
             [] in
  let r := _send (always response_400_null) (sample_job_events "a" 0) s in
  fetch_count (trace (snd r)) = 4%nat /\
  observed (trace (snd r)) = [null_property_TypeError] /\
  fst r = Throw null_property_TypeError.
Proof.
  repeat split; reflexivity.
Qed.

(** The same client and the same status with a body that carries [error]:
    one request, and the failure names the status and the body's error. *)
Example send_400_with_error_body :
  let s := sample_state (sample_options per_job 100 3 (Some quiet_observer))
             [] in
  let r := _send (always response_400) (sample_job_events "a" 0) s in
  fetch_count (trace (snd r)) = 1%nat /\
  fst r = Throw (MkError "Synquer API error 400: Validation error").
Proof.
  split; reflexivity.
Qed.

(** The test 'retries on 500 errors': a 500, a 503, then a 200 make three
    requests, with the backoff of 1 s and 2 s between them, and [_send]
    resolves without calling the observer. *)
Example retries_until_success :
  let net := fun k : nat =>
    match k with
    | 0%nat => Resolves response_500
    | 1%nat => Resolves {| ok := false; status := 503; json := JsonValue None |}
    | _ => Resolves response_200
    end in
  let s := sample_state (sample_options per_job 100 3 (Some quiet_observer))
             [] in
  let r := _send net (sample_job_events "a" 0) s in
  fst r = Ok tt /\
  map is_fetch (trace (snd r)) = [true; false; true; false; true] /\
  filter (fun e => negb (is_fetch e)) (trace (snd r))
  = [Sleep 1000; Sleep 2000].
Proof.
  repeat split; reflexivity.
Qed.

(** The backoff is capped at 10 s and there is none after the last
    attempt: six attempts sleep 1, 2, 4, 8 and 10 s. *)
Example backoff_schedule :
  let s := sample_state (sample_options per_job 100 5 None) [] in
  let r := _send (always response_500) (sample_job_events "a" 0) s in
  filter (fun e => negb (is_fetch e)) (trace (snd r))
  = [Sleep 1000; Sleep 2000; Sleep 4000; Sleep 8000; Sleep 10000] /\
  fetch_count (trace (snd r)) = 6%nat.
Proof.
  split; reflexivity.
Qed.

(** The test 'accepts 207 as success'. *)
Example accepts_207 :
  let s := sample_state (sample_options per_job 100 3 (Some quiet_observer))
             [] in
  let r :=
    _send (always {| ok := false; status := 207; json := JsonValue None |})
      (sample_job_events "a" 0) s in
  fst r = Ok tt /\ fetch_count (trace (snd r)) = 1%nat /\
  observed (trace (snd r)) = [].
Proof.
  repeat split; reflexivity.
Qed.

(** The defaults of the constructor, and the trailing slashes of the base
    address. *)
Example new_Synquer_defaults :
  new_Synquer
    {| opt_apiKey := "sk_dev_test";
       opt_baseUrl := Some "http://localhost:3001//";
       opt_mode := None; opt_batchInterval := None; opt_batchSize := None;
       opt_maxRetries := None; opt_onError := None; opt_disabled := None |}
  = Ok {| _options :=
            {| apiKey := "sk_dev_test"; baseUrl := "http://localhost:3001";
               mode := per_job; batchInterval := 2000; batchSize := 100;
               maxRetries := 3; disabled := false; onError := None |};
          _buffer := []; _flushTimer := None; _flushing := false;
          _shutdownCalled := false |}.
Proof.
  reflexivity.
Qed.

Section TransportFrame.

Variable net : nat -> FetchOutcome.

(** The loop of [_send] reads nothing of the dispatcher but its options,
    and nothing of the world but the trace. *)
Lemma send_loop_indep (events : list IngestEvent) (fuel : nat) :
  forall (attempt : Z) (last : option Error) (s s' : St),
    _options (client s) = _options (client s') ->
    trace s = trace s' ->
    fst (send_loop net fuel events attempt last s)
    = fst (send_loop net fuel events attempt last s') /\
    trace (snd (send_loop net fuel events attempt last s))
    = trace (snd (send_loop net fuel events attempt last s')).
Proof.
  induction fuel as [|fuel IH]; intros attempt last s s' Ho Ht.
  - cbn. auto.
  - cbn [send_loop]. unfold attempt_once. rewrite <- Ho, <- Ht.
    destruct (attempt <=? maxRetries (_options (client s))); [|cbn; auto].
    destruct (net (fetch_count (trace s))) as [r | [err | str]].
    + destruct (ok r || (status r =? 207)).
      { cbn. now rewrite Ht. }
      destruct ((status r =? 400) || (status r =? 401)).
      * destruct (json r); cbn [emit client];
          try (cbn; now rewrite Ht).
        rewrite <- Ho.
        destruct (attempt <? maxRetries (_options (client s)));
          apply IH; cbn; congruence.
      * cbn [emit client]. rewrite <- Ho.
        destruct (attempt <? maxRetries (_options (client s)));
          apply IH; cbn; congruence.
    + cbn [emit client]. rewrite <- Ho.
      destruct (attempt <? maxRetries (_options (client s)));
        apply IH; cbn; congruence.
    + cbn [emit client]. rewrite <- Ho.
      destruct (attempt <? maxRetries (_options (client s)));
        apply IH; cbn; congruence.
Qed.

Lemma send_indep (events : list IngestEvent) (s s' : St) :
  _options (client s) = _options (client s') ->
  trace s = trace s' ->
  fst (_send net events s) = fst (_send net events s') /\
  trace (snd (_send net events s)) = trace (snd (_send net events s')).
Proof.
  intros Ho Ht. unfold _send. cbv beta zeta. rewrite <- Ho.
  destruct (disabled _ || _); [cbn; auto|].
  destruct (send_loop_indep events
              (Z.to_nat (maxRetries (_options (client s)) + 1))
              0 None s s' Ho Ht) as [Hfst Htr].
  destruct (send_loop net _ events 0 None s) as [x1 s1].
  destruct (send_loop net _ events 0 None s') as [x2 s2].
  cbn [fst snd] in Hfst, Htr. subst x2.
  destruct x1 as [|[e|]]; cbn; auto.
  destruct (onError _) as [f|]; [|cbn; auto].
  destruct (f e); cbn; rewrite Htr; auto.
Qed.

(** [_send] throws only on an enabled client, for a non-empty list, and
    after at least one attempt. *)
Lemma send_throw_inv (events : list IngestEvent) (s : St) (e : Error) :
  fst (_send net events s) = Throw e ->
  disabled (_options (client s)) = false /\
  events <> [] /\
  0 <= maxRetries (_options (client s)).
Proof.
  unfold _send. cbv beta zeta.
  destruct (disabled _) eqn:Hd; [cbn; discriminate|].
  destruct events as [|ev events']; [cbn; discriminate|].
  cbn [orb]. destruct (Z.of_nat _ =? 0); [cbn; discriminate|].
  intros Hthrow. repeat split; [discriminate|].
  destruct (Z.leb_spec 0 (maxRetries (_options (client s))));
    [assumption|].
  replace (Z.to_nat _) with 0%nat in Hthrow by lia.
  cbn in Hthrow. discriminate.
Qed.

(** Whenever [_send] throws on a client with an observer, the observer
    has just been called: that call is the last entry of the trace. *)
Lemma send_throw_observed (events : list IngestEvent) (s : St)
    (e : Error) (f : Observer) :
  fst (_send net events s) = Throw e ->
  onError (_options (client s)) = Some f ->
  exists lastError t,
    trace (snd (_send net events s)) = t ++ [OnError lastError] /\
    e = or_default (f lastError) lastError.
Proof.
  unfold _send. cbv beta zeta. intros Hthrow Hf. rewrite Hf in *.
  destruct (disabled _ || _); [cbn in Hthrow; discriminate|].
  destruct (send_loop net _ events 0 None s) as [[|[lastError|]] s1];
    try (cbn in Hthrow; discriminate).
  exists lastError, (trace s1).
  destruct (f lastError) eqn:Hfe; cbn in *; split; congruence.
Qed.

(** A success at the first attempt: one call of [fetch], nothing else. *)
Lemma send_success_first (events : list IngestEvent) (s : St)
    (r : Response) :
  disabled (_options (client s)) = false ->
  events <> [] ->
  0 <= maxRetries (_options (client s)) ->
  net (fetch_count (trace s)) = Resolves r ->
  success_response r = true ->
  _send net events s =
    (Ok tt,
     emit (Fetch (baseUrl (_options (client s)) ++ "/v1/events/batch")
             ("Bearer " ++ apiKey (_options (client s))) events) s).
Proof.
  intros Hen Hev Hretries Hnet Hok.
  unfold _send. cbv beta zeta. rewrite Hen.
  destruct events as [|ev events']; [congruence|].
  cbn [orb List.length].
  replace (Z.of_nat (Datatypes.S (List.length events')) =? 0) with false
    by (symmetry; apply Z.eqb_neq; lia).
  destruct (Z.to_nat (maxRetries (_options (client s)) + 1))
    as [|fuel] eqn:Hfuel; [lia|].
  cbn [send_loop].
  destruct (Z.leb_spec 0 (maxRetries (_options (client s)))); [|lia].
  unfold attempt_once. rewrite Hnet.
  unfold success_response in Hok. rewrite Hok. reflexivity.
Qed.

(** Every request of one [_send] carries the same events, and a loop left
    by [return] has made at least one. *)
Lemma send_loop_bodies (events : list IngestEvent) (fuel : nat) :
  forall (attempt : Z) (last : option Error) (s : St),
    exists n,
      fetch_bodies (trace (snd (send_loop net fuel events attempt last s)))
      = fetch_bodies (trace s) ++ repeat events n /\
      (fst (send_loop net fuel events attempt last s) = Returned ->
       (1 <= n)%nat).
Proof.
  induction fuel as [|fuel IH]; intros attempt last s; cbn [send_loop].
  - exists 0%nat. cbn. rewrite app_nil_r. split; [reflexivity|discriminate].
  - destruct (attempt <=? maxRetries (_options (client s))).
    2: { exists 0%nat. cbn. rewrite app_nil_r.
         split; [reflexivity|discriminate]. }
    pose proof (attempt_once_state net events s) as Hst.
    destruct (attempt_once net events s) as [[| e | e] s1];
      cbn [snd] in Hst; subst s1.
    + exists 1%nat. cbn [fst snd emit trace]. rewrite fetch_bodies_app.
      split; [reflexivity | intros _; lia].
    + exists 1%nat. cbn [fst snd emit trace]. rewrite fetch_bodies_app.
      split; [reflexivity | intros _; lia].
    + match goal with
      | |- context [send_loop net fuel events ?a ?l ?x] =>
          destruct (IH a l x) as (n & Hn & _);
          assert (Hx : fetch_bodies (trace x)
                       = fetch_bodies (trace s) ++ [events])
      end.
      { destruct (attempt <? _); cbn [emit trace client];
          rewrite ?fetch_bodies_app; cbn; now rewrite ?app_nil_r. }
      exists (Datatypes.S n). rewrite Hn, Hx, <- app_assoc.
      split; [reflexivity | intros _; lia].
Qed.

(** Once a failure has been recorded the loop cannot end without one. *)
Lemma send_loop_keeps_failure (events : list IngestEvent) (fuel : nat) :
  forall (attempt : Z) (e : Error) (s : St),
    fst (send_loop net fuel events attempt (Some e) s) <> Fell None.
Proof.
  induction fuel as [|fuel IH]; intros attempt e s; cbn [send_loop].
  - discriminate.
  - destruct (attempt <=? maxRetries (_options (client s)));
      [|discriminate].
    destruct (attempt_once net events s) as [[| e' | e'] s1];
      try discriminate.
    apply IH.
Qed.

(** A [_send] that resolves on an enabled client, for a non-empty list and
    with at least one attempt allowed, has made at least one request; all
    its requests carry the events. *)
Lemma send_ok_delivers (events : list IngestEvent) (s : St) :
  fst (_send net events s) = Ok tt ->
  disabled (_options (client s)) = false ->
  events <> [] ->
  0 <= maxRetries (_options (client s)) ->
  exists n,
    (1 <= n)%nat /\
    fetch_bodies (trace (snd (_send net events s)))
    = fetch_bodies (trace s) ++ repeat events n.
Proof.
  unfold _send. cbv beta zeta. intros Hok Hen Hev Hretries.
  rewrite Hen in *.
  destruct events as [|ev events']; [congruence|].
  cbn [orb List.length] in *.
  replace (Z.of_nat (Datatypes.S (List.length events')) =? 0) with false in *
    by (symmetry; apply Z.eqb_neq; lia).
  destruct (send_loop_bodies (ev :: events')
              (Z.to_nat (maxRetries (_options (client s)) + 1)) 0 None s)
    as (n & Hn & Hret).
  destruct (Z.to_nat (maxRetries (_options (client s)) + 1))
    as [|fuel] eqn:Hfuel; [lia|].
  destruct (send_loop net (Datatypes.S fuel) (ev :: events') 0 None s)
    as [[|[e|]] s1] eqn:Hloop.
  - exists n. split; [now apply Hret | exact Hn].
  - destruct (onError _) as [f|]; [destruct (f e)|]; discriminate.
  - exfalso. cbn [send_loop] in Hloop.
    destruct (Z.leb_spec 0 (maxRetries (_options (client s)))); [|lia].
    destruct (attempt_once net (ev :: events') s) as [[| e' | e'] s2];
      try discriminate.
    match type of Hloop with
    | send_loop net fuel ?evs ?a (Some ?e) ?x = _ =>
        apply (send_loop_keeps_failure evs fuel a e x)
    end.
    now rewrite Hloop.
Qed.

End TransportFrame.

Section FlushProps.

Variable net : nat -> FetchOutcome.

(** [flush] is its first half, then [_send], then its second half. *)
Lemma flush_split (s : St) :
  flush net s =
  match flush_begin s with
  | (None, s') => (Ok tt, s')
  | (Some events, s') =>
      flush_settle events (fst (_send net events s'))
        (snd (_send net events s'))
  end.
Proof.
  unfold flush, flush_begin.
  destruct ((Z.of_nat (List.length (_buffer (client s))) =? 0)
            || _flushing (client s)); [reflexivity|].
  unfold try_finally, try_catch, flush_settle, modify.
  cbn [on_client client with_flushing _buffer].
  destruct (_send net (_buffer (client s)) _) as [[[]|e] s']; reflexivity.
Qed.

(** [flush] returns at its guard when the buffer is empty or a flush is
    in flight. *)
Lemma flush_guard (s : St) :
  _buffer (client s) = [] \/ _flushing (client s) = true ->
  flush net s = (Ok tt, s).
Proof.
  intros [Hb | Hf]; unfold flush.
  - now rewrite Hb.
  - rewrite Hf. now rewrite orb_true_r.
Qed.

Lemma flush_begin_enters (s : St) :
  _buffer (client s) <> [] -> _flushing (client s) = false ->
  flush_begin s =
    (Some (_buffer (client s)),
     on_client (with_buffer []) (on_client (with_flushing true) s)).
Proof.
  intros Hb Hf. unfold flush_begin. rewrite Hf.
  destruct (_buffer (client s)) as [|ev b]; [congruence|].
  reflexivity.
Qed.

(** The promise of [flush] never rejects. *)
Lemma flush_resolves (s : St) :
  fst (flush net s) = Ok tt.
Proof.
  rewrite flush_split.
  destruct (flush_begin s) as [[events|] s']; [|reflexivity].
  unfold flush_settle. now destruct (fst (_send net events s')).
Qed.

(** What an entered [flush] leaves behind.  The transport sees the same
    options and trace as before the detach, so its outcome is that of
    [_send] on the state [flush] was called in. *)
Lemma flush_entered (s : St) :
  _buffer (client s) <> [] -> _flushing (client s) = false ->
  let r := _send net (_buffer (client s)) s in
  let s' := snd (flush net s) in
  trace s' = trace (snd r) /\
  _buffer (client s') =
    match fst r with
    | Ok _ => []
    | Throw _ => _buffer (client s)
    end /\
  _flushing (client s') = false /\
  _options (client s') = _options (client s) /\
  _flushTimer (client s') = _flushTimer (client s) /\
  _shutdownCalled (client s') = _shutdownCalled (client s).
Proof.
  intros Hb Hf r s'. subst r s'.
  rewrite flush_split, (flush_begin_enters s Hb Hf).
  set (s2 := on_client (with_buffer []) (on_client (with_flushing true) s)).
  destruct (send_indep net (_buffer (client s)) s2 s eq_refl eq_refl)
    as [Hfst Htr].
  assert (Hc : client (snd (_send net (_buffer (client s)) s2))
               = with_buffer [] (with_flushing true (client s)))
    by apply send_client.
  rewrite <- Hfst, <- Htr. clearbody s2.
  unfold flush_settle.
  destruct (fst (_send net (_buffer (client s)) s2));
    cbn [fst snd]; unfold on_client;
    cbn [client trace]; rewrite Hc; cbn; rewrite ?app_nil_r; auto 10.
Qed.

(** A flush whose delivery failed leaves the dispatcher exactly as it
    found it. *)
Lemma flush_failed_client (s : St) (e : Error) :
  _buffer (client s) <> [] -> _flushing (client s) = false ->
  fst (_send net (_buffer (client s)) s) = Throw e ->
  client (snd (flush net s)) = client s.
Proof.
  intros Hb Hf Hthrow.
  destruct (flush_entered s Hb Hf) as (_ & Hbuf & Hfl & Ho & Htm & Hsd).
  rewrite Hthrow in Hbuf. rewrite <- Hf in Hfl.
  destruct (client (snd (flush net s))), (client s).
  cbn in *. congruence.
Qed.

(** [sendFn] never rejects either, in either mode. *)
Lemma sendFn_resolves (events : list IngestEvent) (s : St) :
  fst (sendFn net events s) = Ok tt.
Proof.
  unfold sendFn.
  destruct (mode (_options (client s))).
  - unfold try_catch, ret.
    now destruct (_send net events s) as [[[]|e] s'].
  - unfold bind, modify, _ensureFlushTimer.
    cbn [on_client client with_buffer _flushTimer _shutdownCalled].
    destruct (_flushTimer (client s)); [|destruct (_shutdownCalled _)];
      match goal with
      | |- context [if ?c then _ else _] => destruct c
      end; try reflexivity; apply flush_resolves.
Qed.

(** A terminal call on a job wired to [sendFn] resolves when it builds
    its event, whatever becomes of the delivery. *)
Lemma terminal_resolves (clock : nat -> Z) (t : Terminal)
    (st : JState St) :
  builds_event t = true ->
  fst (terminal clock (sendFn net) t st) = Ok tt.
Proof.
  intros Hb.
  destruct (_completed (the_job st)) eqn:Hc.
  - pose proof (call_completed clock (sendFn net) (CTerminal t) st Hc)
      as Hnoop.
    cbn [call] in Hnoop. now rewrite Hnoop.
  - destruct (terminal_open clock (sendFn net) t st Hc Hb)
      as (e & k & _ & _ & _ & ->).
    cbn [fst]. apply sendFn_resolves.
Qed.

End FlushProps.

Section InFlight.

Variable net : nat -> FetchOutcome.

Lemma appended_cons (o : Op) (os : list Op) :
  appended (o :: os) = appended [o] ++ appended os.
Proof.
  destruct o; cbn; rewrite ?app_nil_r; reflexivity.
Qed.

(** While a flush is in flight, nothing that runs on a batch-mode
    dispatcher reaches the network or the guard; events handed to
    [sendFn] go to the end of the buffer. *)
Lemma op_in_flight (o : Op) (s : St) :
  mode (_options (client s)) = batch ->
  _flushing (client s) = true ->
  trace (snd (op net o s)) = trace s /\
  _flushing (client (snd (op net o s))) = true /\
  _options (client (snd (op net o s))) = _options (client s) /\
  _buffer (client (snd (op net o s)))
  = _buffer (client s) ++ appended [o].
Proof.
  intros Hmode Hfl.
  destruct o as [events | | |]; cbn [op appended].
  - unfold sendFn. rewrite Hmode.
    unfold bind, modify, _ensureFlushTimer.
    cbn [on_client client with_buffer _flushTimer _shutdownCalled].
    rewrite app_nil_r.
    destruct (_flushTimer (client s)); [|destruct (_shutdownCalled _)];
      match goal with
      | |- context [if ?c then _ else _] => destruct c
      end;
      try (rewrite flush_guard by (right; cbn; assumption));
      cbn; auto.
  - rewrite flush_guard by (right; assumption).
    cbn. rewrite app_nil_r. auto.
  - unfold shutdown. rewrite app_nil_r.
    destruct (_shutdownCalled (client s)); [cbn; auto|].
    cbn [on_client client with_shutdownCalled _flushTimer].
    destruct (_flushTimer (client s));
      match goal with
      | |- context [if ?c then _ else _] => destruct c
      end;
      try (rewrite flush_guard by (right; cbn; assumption));
      cbn; auto.
  - rewrite app_nil_r.
    destruct (_flushTimer (client s)); [|cbn; auto].
    unfold timer_callback, try_catch.
    rewrite flush_guard by (right; assumption). cbn. auto.
Qed.

Lemma run_ops_in_flight (os : list Op) :
  forall s : St,
    mode (_options (client s)) = batch ->
    _flushing (client s) = true ->
    trace (run_ops net os s) = trace s /\
    _flushing (client (run_ops net os s)) = true /\
    _options (client (run_ops net os s)) = _options (client s) /\
    _buffer (client (run_ops net os s))
    = _buffer (client s) ++ appended os.
Proof.
  induction os as [|o os IH]; intros s Hmode Hfl.
  - cbn. rewrite app_nil_r. auto.
  - destruct (op_in_flight o s Hmode Hfl) as (Ht & Hf & Ho & Hb).
    cbn [run_ops].
    destruct (IH (snd (op net o s))) as (Ht' & Hf' & Ho' & Hb');
      [congruence | assumption |].
    rewrite Ht', Hf', Ho', Hb', Ht, Ho, Hb, (appended_cons o os).
    rewrite <- app_assoc. auto.
Qed.

(** Whatever state it is called in, [flush] leaves the options, the timer
    and the shutdown mark alone, and it leaves no guard behind that it did
    not find. *)
Lemma flush_keeps (s : St) :
  _options (client (snd (flush net s))) = _options (client s) /\
  _flushTimer (client (snd (flush net s))) = _flushTimer (client s) /\
  _shutdownCalled (client (snd (flush net s)))
  = _shutdownCalled (client s) /\
  (_flushing (client s) = false ->
   _flushing (client (snd (flush net s))) = false).
Proof.
  destruct (_flushing (client s)) eqn:Hf.
  - rewrite flush_guard by (now right). cbn [snd].
    repeat split; congruence.
  - destruct (_buffer (client s)) as [|ev b] eqn:Hb.
    + rewrite flush_guard by (now left). cbn [snd].
      repeat split; congruence.
    + destruct (flush_entered net s) as (_ & _ & Hfl & Ho & Htm & Hsd);
        [rewrite Hb; discriminate | assumption |].
      repeat split; congruence.
Qed.

(** Run one after the other, each to its end, the operations leave no
    flush in flight, and none of them takes the shutdown mark back. *)
Lemma op_quiescent (o : Op) (s : St) :
  (_flushing (client s) = false ->
   _flushing (client (snd (op net o s))) = false) /\
  (_shutdownCalled (client s) = true ->
   _shutdownCalled (client (snd (op net o s))) = true).
Proof.
  assert (Hif : forall (b : bool) (s' : St),
             (_flushing (client s') = false ->
              _flushing (client (snd (if b then flush net s'
                                      else (Ok tt, s')))) = false) /\
             (_shutdownCalled (client s') = true ->
              _shutdownCalled (client (snd (if b then flush net s'
                                            else (Ok tt, s')))) = true)).
  { intros b s'. destruct b; [|auto].
    destruct (flush_keeps s') as (_ & _ & Hsd & Hfl).
    split; [exact Hfl | now rewrite Hsd]. }
  destruct o as [events | | |]; cbn [op].
  - unfold sendFn. destruct (mode (_options (client s))).
    + unfold try_catch, ret.
      pose proof (send_client net events s) as Hc.
      destruct (_send net events s) as [[[]|e] s']; cbn [snd] in *;
        now rewrite Hc.
    + unfold bind, modify, _ensureFlushTimer.
      cbn [on_client client with_buffer _flushTimer _shutdownCalled].
      destruct (_flushTimer (client s)) as [tm|];
        [|destruct (_shutdownCalled (client s)) eqn:Hsd];
        match goal with
        | |- context [if ?c then flush net ?x else _] =>
            destruct (Hif c x) as [Hfl' Hsd']
        end;
        split; intros H;
        try (apply Hfl'; cbn; assumption);
        try (apply Hsd'; cbn; assumption);
        discriminate.
  - apply (Hif true s).
  - unfold shutdown.
    destruct (_shutdownCalled (client s)) eqn:Hsd; [auto|].
    cbn [on_client client with_shutdownCalled _flushTimer].
    destruct (_flushTimer (client s)) as [tm|];
      match goal with
      | |- context [if ?c then flush net ?x else _] =>
          destruct (Hif c x) as [Hfl' Hsd']
      end;
      split; intros H;
      try (apply Hfl'; cbn; assumption);
      discriminate.
  - destruct (_flushTimer (client s)) as [tm|]; [|auto].
    unfold timer_callback, try_catch.
    pose proof (flush_resolves net s) as Hres.
    destruct (flush_keeps s) as (_ & _ & Hsd & Hfl).
    destruct (flush net s) as [[[]|e] s']; cbn [fst snd] in *;
      [|discriminate].
    split; [exact Hfl | now rewrite Hsd].
Qed.

Lemma run_ops_quiescent (os : list Op) :
  forall s : St,
    (_flushing (client s) = false ->
     _flushing (client (run_ops net os s)) = false) /\
    (_shutdownCalled (client s) = true ->
     _shutdownCalled (client (run_ops net os s)) = true).
Proof.
  induction os as [|o os IH]; intros s; cbn [run_ops]; [auto|].
  destruct (op_quiescent o s) as [Hfl Hsd].
  destruct (IH (snd (op net o s))) as [Hfl' Hsd'].
  split; auto.
Qed.

(** In flight, an operation acts on the dispatcher alone: what it makes of
    the dispatcher does not depend on the trace, which it leaves alone. *)
Lemma op_in_flight_shape (o : Op) (c : Synquer) :
  mode (_options c) = batch ->
  _flushing c = true ->
  exists c',
    forall t,
      snd (op net o {| client := c; trace := t |})
      = {| client := c'; trace := t |}.
Proof.
  intros Hmode Hfl.
  assert (Hguard : forall (b : bool) (s : St),
             _flushing (client s) = true ->
             snd (if b then flush net s else (Ok tt, s)) = s).
  { intros b s Hs. destruct b; [|reflexivity].
    now rewrite flush_guard by (now right). }
  exists (client (snd (op net o {| client := c; trace := [] |}))).
  intros t.
  destruct o as [events | | |]; cbn [op].
  - unfold sendFn, bind, modify, _ensureFlushTimer.
    cbn [client _options]. rewrite Hmode.
    cbn [on_client client trace with_buffer _flushTimer _shutdownCalled].
    destruct (_flushTimer c) as [tm|]; [|destruct (_shutdownCalled c)];
      rewrite !Hguard by (cbn; assumption); reflexivity.
  - now rewrite !flush_guard by (now right).
  - unfold shutdown. cbn [client].
    destruct (_shutdownCalled c); [reflexivity|].
    cbn [on_client client trace with_shutdownCalled _flushTimer].
    destruct (_flushTimer c) as [tm|];
      rewrite !Hguard by (cbn; assumption); reflexivity.
  - cbn [client].
    destruct (_flushTimer c) as [tm|]; [|reflexivity].
    unfold timer_callback, try_catch.
    now rewrite !flush_guard by (now right).
Qed.

Lemma run_ops_in_flight_shape (os : list Op) :
  forall c : Synquer,
    mode (_options c) = batch ->
    _flushing c = true ->
    exists c',
      forall t,
        run_ops net os {| client := c; trace := t |}
        = {| client := c'; trace := t |}.
Proof.
  induction os as [|o os IH]; intros c Hmode Hfl.
  - exists c. reflexivity.
  - destruct (op_in_flight_shape o c Hmode Hfl) as (c1 & Hc1).
    destruct (op_in_flight o {| client := c; trace := [] |} Hmode Hfl)
      as (_ & Hf1 & Ho1 & _).
    rewrite Hc1 in Hf1, Ho1. cbn in Hf1, Ho1.
    destruct (IH c1) as (c' & Hc'); [congruence | assumption |].
    exists c'. intros t. cbn [run_ops]. now rewrite Hc1, Hc'.
Qed.

(** So it makes no difference whether the operations run before the
    requests of the suspended [_send] or after them. *)
Lemma in_flight_commute (os : list Op) (events : list IngestEvent) (s : St) :
  mode (_options (client s)) = batch ->
  _flushing (client s) = true ->
  run_ops net os (snd (_send net events s))
  = snd (_send net events (run_ops net os s)) /\
  fst (_send net events (run_ops net os s)) = fst (_send net events s).
Proof.
  intros Hmode Hfl.
  destruct (run_ops_in_flight os s Hmode Hfl) as (Ht & _ & Ho & _).
  destruct (send_indep net events (run_ops net os s) s Ho Ht)
    as [Hfst Htr].
  split; [|exact Hfst].
  destruct (run_ops_in_flight_shape os (client s) Hmode Hfl) as (c' & Hc').
  pose proof (send_client net events s) as Hcs.
  pose proof (send_client net events (run_ops net os s)) as Hcr.
  destruct (snd (_send net events s)) as [c1 t1] eqn:Hs1.
  destruct (snd (_send net events (run_ops net os s))) as [c2 t2] eqn:Hs2.
  cbn [client trace] in *. subst c1 c2.
  rewrite Hc'. destruct s as [c t]. cbn [client trace] in *.
  rewrite Hc'. cbn [client]. congruence.
Qed.

End InFlight.

(** C1.  In batch mode, when the delivery of a flush fails, the detached
    events are put back at the front of the buffer in their order, ahead of
    whatever was appended while the flush was suspended in [_send], and the
    guard is cleared; with nothing in between, the dispatcher is exactly as
    it was before the flush.  The next flush whose delivery succeeds then
    sends exactly the buffer so restored, in every request it makes, and
    empties it: with nothing appended in between, exactly the events that
    failed, none lost and none twice. *)
Theorem flush_failure_requeues_in_front :
  forall (net : nat -> FetchOutcome) (s : St) (e : Error) (os : list Op),
    mode (_options (client s)) = batch ->
    _buffer (client s) <> [] ->
    _flushing (client s) = false ->
    fst (_send net (_buffer (client s)) s) = Throw e ->
    let failed_events := _buffer (client s) in
    (* the flush run to its end with nothing in between *)
    (fst (flush net s) = Ok tt /\
     client (snd (flush net s)) = client s) /\
    (* the flush with [os] running while it is suspended in [_send] *)
    let s1 := snd (flush_begin s) in
    let sent := _send net failed_events s1 in
    let s2 := run_ops net os (snd sent) in
    let s3 := snd (flush_settle failed_events (fst sent) s2) in
    fst sent = Throw e /\
    s2 = snd (_send net failed_events (run_ops net os s1)) /\
    _buffer (client s3) = failed_events ++ appended os /\
    _flushing (client s3) = false /\
    fetch_bodies (trace s3)
    = fetch_bodies (trace (snd (_send net failed_events s))) /\
    (* the next flush, when its delivery succeeds *)
    (fst (_send net (failed_events ++ appended os) s3) = Ok tt ->
     exists n,
       (1 <= n)%nat /\
       fetch_bodies (trace (snd (flush net s3)))
       = fetch_bodies (trace s3) ++ repeat (failed_events ++ appended os) n /\
       _buffer (client (snd (flush net s3))) = []) /\
    (* and when it succeeds at the first request *)
    (forall r,
        net (fetch_count (trace s3)) = Resolves r ->
        success_response r = true ->
        fst (flush net s3) = Ok tt /\
        fetch_bodies (trace (snd (flush net s3)))
        = fetch_bodies (trace s3) ++ [failed_events ++ appended os] /\
        _buffer (client (snd (flush net s3))) = []).
Proof.
  intros net s e os Hmode Hb Hf Hthrow failed_events.
  destruct (@send_throw_inv net _ s e Hthrow) as (Hen & _ & Hretries).
  split.
  { split; [apply flush_resolves|].
    now apply (@flush_failed_client net s e). }
  intros s1 sent s2 s3.
  assert (Hs1 : s1 = on_client (with_buffer [])
                       (on_client (with_flushing true) s))
    by (unfold s1; now rewrite (@flush_begin_enters s Hb Hf)).
  destruct (@send_indep net failed_events s1 s) as [Hfst Htr];
    [now rewrite Hs1 | now rewrite Hs1 |].
  assert (Hsent : fst sent = Throw e)
    by (unfold sent; rewrite Hfst; exact Hthrow).
  assert (Hc1 : client (snd sent) = client s1) by apply send_client.
  destruct (@run_ops_in_flight net os (snd sent)) as (Ht2 & Hf2 & Ho2 & Hb2).
  { rewrite Hc1, Hs1. exact Hmode. }
  { rewrite Hc1, Hs1. reflexivity. }
  fold s2 in Ht2, Hf2, Ho2, Hb2.
  rewrite Hc1, Hs1 in Hb2, Ho2. cbn in Hb2, Ho2.
  assert (Hs3 : _buffer (client s3) = failed_events ++ appended os /\
                _flushing (client s3) = false /\
                trace s3 = trace s2 /\
                _options (client s3) = _options (client s)).
  { unfold s3. rewrite Hsent. cbn. rewrite Hb2, Ho2. auto. }
  destruct Hs3 as (Hb3 & Hf3 & Ht3 & Ho3).
  assert (Hne : _buffer (client s3) <> []).
  { rewrite Hb3. unfold failed_events.
    destruct (_buffer (client s)); [congruence | discriminate]. }
  split; [exact Hsent|].
  split.
  { unfold s2, sent.
    apply (@in_flight_commute net os failed_events s1);
      rewrite Hs1; [exact Hmode | reflexivity]. }
  split; [exact Hb3|]. split; [exact Hf3|].
  split; [now rewrite Ht3, Ht2; unfold sent; rewrite Htr|].
  destruct (@flush_entered net s3 Hne Hf3) as (Htr' & Hbuf' & _).
  rewrite Hb3 in Htr', Hbuf', Hne.
  split.
  - intros Hok.
    destruct (@send_ok_delivers net (failed_events ++ appended os) s3 Hok)
      as (n & Hn & Hbodies); try assumption; try (rewrite Ho3; assumption).
    exists n. rewrite Hok in Hbuf'. rewrite Htr'. auto.
  - intros r Hnet Hok.
    rewrite (@send_success_first net (failed_events ++ appended os) s3 r)
      in Htr', Hbuf';
      try assumption; try (rewrite Ho3; assumption).
    split; [apply flush_resolves|].
    cbn [fst snd emit trace] in Htr', Hbuf'.
    rewrite Htr', fetch_bodies_app. cbn. auto.
Qed.

(** A run of C1 after the test 'puts events back in buffer on flush
    failure': [maxRetries = 0], the first request fails, and a second job
    completes while the flush is in flight. *)
Lemma flush_failure_requeues_in_front_witness :
  let s := sample_state (sample_options batch 100 0 None)
             (sample_job_events "a" 0) in
  let os := [OpSend (sample_job_events "b" 5)] in
  let s3 :=
    snd (flush_settle (sample_job_events "a" 0)
           (fst (_send fails_once (sample_job_events "a" 0)
                   (snd (flush_begin s))))
           (run_ops fails_once os
              (snd (_send fails_once (sample_job_events "a" 0)
                      (snd (flush_begin s)))))) in
  _buffer (client (snd (flush fails_once s))) = sample_job_events "a" 0 /\
  _buffer (client s3) = sample_job_events "a" 0 ++ sample_job_events "b" 5 /\
  fetch_bodies (trace (snd (flush fails_once s3)))
  = [sample_job_events "a" 0;
     sample_job_events "a" 0 ++ sample_job_events "b" 5].
Proof.
  intros s os s3.
  destruct (@flush_failure_requeues_in_front fails_once s
              (MkError "Network error") os
              eq_refl ltac:(discriminate) eq_refl eq_refl)
    as ((_ & Hseq) & _ & _ & Hbuf & _ & _ & _ & Hnext).
  split; [now rewrite Hseq|]. split; [exact Hbuf|].
  destruct (Hnext response_200 eq_refl eq_refl) as (_ & Hbodies & _).
  exact Hbodies.
Defined.

(** C6.  In per-job mode a terminal call on a job that builds its
    terminal event never rejects: [sendFn] does what [_send] does and then
    resolves whatever [_send] did, and when [_send] failed on a client
    with an observer, the observer has been called by then (its call is
    the last entry of the trace). *)
Theorem per_job_terminal_never_raises :
  forall (net : nat -> FetchOutcome) (clock : nat -> Z) (t : Terminal)
         (st : JState St),
    mode (_options (client (ext st))) = per_job ->
    (builds_event t = true ->
     fst (terminal clock (sendFn net) t st) = Ok tt) /\
    (forall events,
        sendFn net events (ext st)
        = (Ok tt, snd (_send net events (ext st)))) /\
    (forall events e f,
        fst (_send net events (ext st)) = Throw e ->
        onError (_options (client (ext st))) = Some f ->
        exists lastError t',
          trace (snd (sendFn net events (ext st)))
          = t' ++ [OnError lastError]).
Proof.
  intros net clock t st Hmode.
  assert (Hswallow : forall events,
             sendFn net events (ext st)
             = (Ok tt, snd (_send net events (ext st)))).
  { intros events. unfold sendFn. rewrite Hmode. unfold try_catch, ret.
    now destruct (_send net events (ext st)) as [[[]|e] s']. }
  split; [apply terminal_resolves|]. split; [exact Hswallow|].
  intros events e f Hthrow Hobs.
  destruct (@send_throw_observed net events (ext st) e f Hthrow Hobs)
    as (lastError & t' & Htrace & _).
  exists lastError, t'. now rewrite Hswallow.
Qed.

(** A run of C6 after the test 'handles fetch network errors': the call of
    [done] resolves although the only request failed. *)
Lemma per_job_terminal_never_raises_witness :
  let st :=
    job sample_clock "a" sample_job_options 0
      (sample_state (sample_options per_job 100 0 (Some quiet_observer)) []) in
  fst (done sample_clock (sendFn fails_once) JUndefined st) = Ok tt.
Proof.
  intros st.
  destruct (@per_job_terminal_never_raises fails_once sample_clock
              (TDone JUndefined) st eq_refl) as (Hres & _).
  exact (Hres eq_refl).
Defined.

(** C10.  [flush] never rejects: whatever [_send] throws is caught, the
    batch that failed is back in the buffer, and the guard that this flush
    set is cleared.  Hence [sendFn] resolves in batch mode as well, and so
    does every terminal call of a job that builds its terminal event and
    every manual flush. *)
Theorem flush_never_raises :
  forall (net : nat -> FetchOutcome) (s : St),
    fst (flush net s) = Ok tt /\
    (_flushing (client s) = false ->
     _flushing (client (snd (flush net s))) = false) /\
    (forall e,
        _buffer (client s) <> [] ->
        _flushing (client s) = false ->
        fst (_send net (_buffer (client s)) s) = Throw e ->
        _buffer (client (snd (flush net s))) = _buffer (client s)) /\
    (forall events, fst (sendFn net events s) = Ok tt) /\
    (forall (clock : nat -> Z) (t : Terminal) (st : JState St),
        mode (_options (client (ext st))) = batch ->
        builds_event t = true ->
        fst (terminal clock (sendFn net) t st) = Ok tt).
Proof.
  intros net s.
  split; [apply flush_resolves|]. split; [|split; [|split]].
  - intros Hf.
    destruct (_buffer (client s)) as [|ev b] eqn:Hb.
    + rewrite flush_guard by (now left). exact Hf.
    + assert (Hne : _buffer (client s) <> []) by (rewrite Hb; discriminate).
      now destruct (@flush_entered net s Hne Hf) as (_ & _ & Hfl & _).
  - intros e Hne Hf Hthrow.
    destruct (@flush_entered net s Hne Hf) as (_ & Hbuf & _).
    now rewrite Hthrow in Hbuf.
  - intros events. apply sendFn_resolves.
  - intros clock t st _. apply terminal_resolves.
Qed.

(** A run of C10: in batch mode with [batchSize = 2] the completion of a
    job triggers a flush whose only request fails; [done] resolves all the
    same and the two events are in the buffer. *)
Lemma flush_never_raises_witness :
  let s := sample_state (sample_options batch 2 0 None) [] in
  let st := job sample_clock "a" sample_job_options 0 s in
  let r := done sample_clock (sendFn fails_once) JUndefined st in
  fst r = Ok tt /\
  fetch_count (trace (ext (snd r))) = 1%nat /\
  List.length (_buffer (client (ext (snd r)))) = 2%nat.
Proof.
  intros s st r.
  destruct (@flush_never_raises fails_once s) as (_ & _ & _ & _ & Hjob).
  split; [exact (Hjob sample_clock (TDone JUndefined) st eq_refl eq_refl)|].
  split; reflexivity.
Defined.

(** C7.  In batch mode [sendFn] appends the job's events to the end of the
    buffer, in order, without touching the network, and then runs [flush]
    at once, its own outcome and final state being those of that flush, if
    and only if the buffer now holds at least [batchSize] events.  Seen
    from the network, with no flush in flight and a request that succeeds:
    at or above the threshold one request carrying the whole buffer leaves
    and the buffer is emptied, below it nothing leaves and the events
    stay. *)
Theorem batch_send_flushes_at_batch_size :
  forall (net : nat -> FetchOutcome) (events : list IngestEvent) (s : St),
    mode (_options (client s)) = batch ->
    let buffered := _buffer (client s) ++ events in
    let full :=
      batchSize (_options (client s)) <=? Z.of_nat (List.length buffered) in
    let s1 := snd (_ensureFlushTimer (on_client (with_buffer buffered) s)) in
    _buffer (client s1) = buffered /\
    trace s1 = trace s /\
    sendFn net events s = (if full then flush net s1 else (Ok tt, s1)) /\
    (forall r,
        _flushing (client s) = false ->
        disabled (_options (client s)) = false ->
        0 <= maxRetries (_options (client s)) ->
        buffered <> [] ->
        net (fetch_count (trace s)) = Resolves r ->
        success_response r = true ->
        fetch_bodies (trace (snd (sendFn net events s)))
        = fetch_bodies (trace s) ++ (if full then [buffered] else []) /\
        _buffer (client (snd (sendFn net events s)))
        = (if full then [] else buffered)).
Proof.
  intros net events s Hmode buffered full s1.
  assert (Hs1 : _buffer (client s1) = buffered /\ trace s1 = trace s /\
                _options (client s1) = _options (client s) /\
                _flushing (client s1) = _flushing (client s)).
  { unfold s1, _ensureFlushTimer.
    cbn [on_client client with_buffer _flushTimer _shutdownCalled].
    destruct (_flushTimer (client s)); [|destruct (_shutdownCalled _)];
      cbn; auto. }
  destruct Hs1 as (Hb1 & Ht1 & Ho1 & Hf1).
  assert (Hsend : sendFn net events s
                  = (if full then flush net s1 else (Ok tt, s1))).
  { unfold sendFn. rewrite Hmode. unfold bind, modify.
    fold buffered.
    change (on_client (fun c => with_buffer (_buffer c ++ events) c) s)
      with (on_client (with_buffer buffered) s).
    fold s1.
    destruct (_ensureFlushTimer (on_client (with_buffer buffered) s))
      as [[[]|e] s1'] eqn:Hens.
    - cbn [snd] in s1. subst s1. rewrite Ho1, Hb1. reflexivity.
    - unfold _ensureFlushTimer in Hens.
      destruct (_flushTimer _); [|destruct (_shutdownCalled _)];
        discriminate. }
  split; [assumption|]. split; [assumption|]. split; [assumption|].
  intros r Hfl Hen Hretries Hne Hnet Hok. rewrite <- Hf1 in Hfl. split.
  - rewrite Hsend. destruct full; [|cbn; now rewrite Ht1, app_nil_r].
    destruct (@flush_entered net s1) as (Htr & _);
      [now rewrite Hb1 | assumption |].
    rewrite Htr, Hb1.
    rewrite (@send_success_first net buffered s1 r);
      rewrite ?Ho1, ?Ht1; try assumption.
    cbn [snd emit trace]. rewrite fetch_bodies_app, Ht1. reflexivity.
  - rewrite Hsend. destruct full; [|cbn; assumption].
    destruct (@flush_entered net s1) as (_ & Hbuf & _);
      [now rewrite Hb1 | assumption |].
    rewrite Hbuf, Hb1.
    rewrite (@send_success_first net buffered s1 r);
      rewrite ?Ho1, ?Ht1; try assumption.
    reflexivity.
Qed.

(** A run of C7 after the test 'auto-flushes when batchSize is reached':
    with [batchSize = 3] and the two events of a first job buffered, the
    completion of a second job brings the total to four and one request
    with the four events leaves. *)
Lemma batch_send_flushes_at_batch_size_witness :
  let s := sample_state (sample_options batch 3 3 None)
             (sample_job_events "a" 0) in
  let r := sendFn (always response_200) (sample_job_events "b" 5) s in
  fetch_bodies (trace (snd r))
  = [sample_job_events "a" 0 ++ sample_job_events "b" 5] /\
  _buffer (client (snd r)) = [].
Proof.
  intros s r.
  destruct (@batch_send_flushes_at_batch_size (always response_200)
              (sample_job_events "b" 5) s eq_refl)
    as (_ & _ & _ & Hnet).
  exact (Hnet response_200 eq_refl eq_refl ltac:(cbn; lia)
           ltac:(discriminate) eq_refl eq_refl).
Defined.

(** The whole of that test, through the jobs: the first completion sends
    nothing, the second sends the four events. *)
Example auto_flush_at_batch_size_3 :
  let s := sample_state (sample_options batch 3 3 None) [] in
  let net := always response_200 in
  let st1 :=
    snd (done sample_clock (sendFn net) JUndefined
           (job sample_clock "a" sample_job_options 0 s)) in
  let st2 :=
    snd (done sample_clock (sendFn net) JUndefined
           (job sample_clock "b" sample_job_options (ticks st1) (ext st1))) in
  fetch_count (trace (ext st1)) = 0%nat /\
  List.length (_buffer (client (ext st1))) = 2%nat /\
  map (@List.length IngestEvent) (fetch_bodies (trace (ext st2))) = [4%nat] /\
  _buffer (client (ext st2)) = [].
Proof.
  cbv zeta. repeat split; reflexivity.
Qed.




(* ================================================================== *)
(** * Further properties of the job *)

Section ObjectFacts.

Lemma obj_get_set (k k' : string) (v : JsValue) (o : JsObject) :
  obj_get k' (obj_set k v o)
  = if String.eqb k' k then Some v else obj_get k' o.
Proof.
  induction o as [|[k0 v0] o IH]; cbn.
  - reflexivity.
  - destruct (String.eqb_spec k k0) as [-> | Hk]; cbn.
    + now destruct (String.eqb k' k0).
    + destruct (String.eqb_spec k' k0) as [-> | Hk'].
      * destruct (String.eqb_spec k0 k); [congruence | reflexivity].
      * exact IH.
Qed.

Lemma obj_get_app (k : string) (o1 o2 : JsObject) :
  obj_get k (o1 ++ o2)
  = match obj_get k o1 with
    | Some v => Some v
    | None => obj_get k o2
    end.
Proof.
  induction o1 as [|[k0 v0] o1 IH]; cbn; [reflexivity|].
  now destruct (String.eqb k k0).
Qed.

(** After [{ ...dst, ...src }] a key holds what [src] gave it last, and
    what [dst] had where [src] has no such key. *)
Lemma obj_get_spread (k : string) (src : JsObject) :
  forall dst : JsObject,
    obj_get k (obj_spread src dst)
    = match obj_get k (rev src) with
      | Some v => Some v
      | None => obj_get k dst
      end.
Proof.
  unfold obj_spread.
  induction src as [|[k0 v0] src IH]; intros dst; cbn [fold_left rev].
  - reflexivity.
  - rewrite IH, obj_get_app. cbn [fst snd obj_get].
    destruct (obj_get k (rev src)); [reflexivity|].
    rewrite obj_get_set. now destruct (String.eqb k k0).
Qed.

End ObjectFacts.

Section JobHistory.

Variable S : Type.
Variable clock : nat -> Z.
Variable sendFn : list IngestEvent -> M S unit.

Lemma run_calls_app (cs1 cs2 : list Call) (st : JState S) :
  run_calls clock sendFn (cs1 ++ cs2) st
  = run_calls clock sendFn cs2 (run_calls clock sendFn cs1 st).
Proof.
  revert st. induction cs1 as [|c cs1 IH]; intros st; cbn; auto.
Qed.

(** What one call that builds its event does to an open job: it appends
    one event of the kind of the call, carrying the job's id and no
    external id, and completes the job when it is a terminal call. *)
Lemma call_open (c : Call) (st : JState S) :
  _completed (the_job st) = false ->
  call_builds_event c = true ->
  exists e,
    type e = call_type c /\
    jobId e = id (the_job st) /\
    externalId e = None /\
    _events (the_job (snd (call clock sendFn c st)))
    = _events (the_job st) ++ [e] /\
    id (the_job (snd (call clock sendFn c st))) = id (the_job st) /\
    _completed (the_job (snd (call clock sendFn c st)))
    = is_terminal_call c.
Proof.
  intros Hc Hb.
  assert (Hpair : forall (A B C : Type) (p : A * B) (f : A -> B -> C),
             (let (r, x) := p in f r x) = f (fst p) (snd p))
    by (intros A B C [r x] f; reflexivity).
  destruct c as [a | [r | err | r | r]]; cbn [call terminal];
    unfold event, done, failed, skip, review, bind, this, startTs_of,
      set_completed, Date_now, events_push, call_sendFn, modify, ret, lift;
    rewrite Hc; cbn.
  3: cbn in Hb; destruct (errorData err) as [d | x]; [|discriminate].
  2, 3: destruct (_events (the_job st)) as [|e0 l] eqn:He; cbn.
  all: try rewrite Hpair; cbn; eexists;
    (split; [|split; [|split; [|split; [|split]]]]); cycle 3;
    [ reflexivity | reflexivity | try rewrite Hc; reflexivity
    | reflexivity | reflexivity | reflexivity ].
Qed.

(** The events an open job gains from a sequence of calls. *)
Lemma run_calls_open (cs : list Call) :
  forall st : JState S,
    _completed (the_job st) = false ->
    exists added,
      _events (the_job (run_calls clock sendFn cs st))
      = _events (the_job st) ++ added /\
      map type added = map call_type (effective cs) /\
      Forall (fun e => jobId e = id (the_job st) /\ externalId e = None)
        added /\
      id (the_job (run_calls clock sendFn cs st)) = id (the_job st) /\
      _completed (the_job (run_calls clock sendFn cs st))
      = existsb is_terminal_call cs.
Proof.
  induction cs as [|c cs IH]; intros st Hc; cbn [run_calls].
  - exists []. rewrite app_nil_r. cbn. auto.
  - destruct (call_builds_event c) eqn:Hb.
    + destruct (call_open c st Hc Hb)
        as (e & Hty & Hid & Hext & Hev & Hjid & Hdone).
      destruct c as [a | t]; cbn [is_terminal_call] in Hdone.
      * destruct (IH _ Hdone) as (added & Hev' & Hty' & Hall & Hid' & Hc').
        exists (e :: added). rewrite Hev', Hev, <- app_assoc.
        cbn [existsb is_terminal_call orb effective map].
        rewrite Hty, Hty', Hid', Hjid, Hc'.
        repeat split; try reflexivity.
        constructor; [now split|].
        eapply Forall_impl; [|exact Hall]. cbn beta. intros x [Hx1 Hx2].
        split; [now rewrite Hx1 | exact Hx2].
      * rewrite run_calls_completed by exact Hdone.
        exists [e]. rewrite Hev, Hjid, Hdone.
        cbn [call_builds_event] in Hb.
        cbn [existsb is_terminal_call orb effective map]. rewrite Hb.
        cbn [map]. rewrite Hty. repeat split; try reflexivity.
        constructor; [now split | constructor].
    + destruct c as [a | t]; [discriminate|].
      cbn [call_builds_event] in Hb. cbn [call].
      destruct (terminal_throws clock sendFn t st Hc Hb)
        as (err & x & k & _ & _ & _ & ->).
      rewrite run_calls_completed by reflexivity.
      exists []. cbn [snd the_job _events id _completed].
      cbn [existsb is_terminal_call orb effective map]. rewrite Hb.
      rewrite app_nil_r. repeat split; try reflexivity. constructor.
Qed.

(** A terminal call that builds its event, on an open job that holds its
    started event, stamps the new event with the next reading of the
    clock and, for [done] and [failed], stores the time since the started
    event. *)
Lemma terminal_open_duration (t : Terminal) (st : JState S)
    (e0 : IngestEvent) (rest : list IngestEvent) :
  _completed (the_job st) = false ->
  builds_event t = true ->
  _events (the_job st) = e0 :: rest ->
  exists e,
    _events (the_job (snd (terminal clock sendFn t st)))
    = _events (the_job st) ++ [e] /\
    type e = terminal_type t /\
    timestamp e = clock (ticks st) /\
    data_get "durationMs" e
    = (if measures_duration t
       then Some (JNum (timestamp e - timestamp e0))
       else None).
Proof.
  intros Hc Hb Hev.
  assert (Hpair : forall (A B C : Type) (p : A * B) (f : A -> B -> C),
             (let (r, x) := p in f r x) = f (fst p) (snd p))
    by (intros A B C [r x] f; reflexivity).
  destruct t as [r | err | r | r]; cbn [terminal];
    unfold done, failed, skip, review, bind, this, startTs_of,
      set_completed, Date_now, events_push, call_sendFn, modify, ret, lift;
    rewrite Hc, Hev; cbn;
    try (cbn in Hb; destruct (errorData err) as [d | x]; [|discriminate]);
    cbn; rewrite Hpair; cbn; eexists;
    (split; [reflexivity|]); (split; [reflexivity|]);
    (split; [reflexivity|]); unfold data_get; cbn [data];
    rewrite ?obj_get_set; reflexivity.
Qed.

End JobHistory.

(** X1.  The events of a job tell its history: after the started event
    comes one event per call up to the first terminal call, of the kind of
    that call ([event] gives [job.event], [done] [job.done], [failed]
    [job.failed], [skip] [job.skipped], [review] [job.review]), and nothing
    for any call after it; the first terminal call itself gives its event
    unless it is a [failed] whose [String(error)] throws, which gives
    none.  Every event carries the job's id, only the started event
    carries the external id, and the job is completed exactly when a
    terminal call was among the calls. *)
Theorem job_events_follow_calls :
  forall (S : Type) (clock : nat -> Z)
         (sendFn : list IngestEvent -> M S unit)
         (id0 : string) (options : JobOptions) (ticks0 : nat) (ext0 : S)
         (cs : list Call),
    let st :=
      run_calls clock sendFn cs (new_Job clock id0 options ticks0 ext0) in
    map type (_events (the_job st))
    = job_started :: map call_type (effective cs) /\
    Forall (fun e => jobId e = id0) (_events (the_job st)) /\
    map externalId (_events (the_job st))
    = jo_externalId options
      :: repeat None (List.length (effective cs)) /\
    _completed (the_job st) = existsb is_terminal_call cs /\
    id (the_job st) = id0.
Proof.
  intros S clock sendFn id0 options ticks0 ext0 cs st.
  destruct (@run_calls_open S clock sendFn cs
              (new_Job clock id0 options ticks0 ext0) eq_refl)
    as (added & Hev & Hty & Hall & Hid & Hc).
  fold st in Hev, Hid, Hc. cbn in Hev, Hall, Hid.
  rewrite Hev. cbn [map]. rewrite Hty.
  split; [reflexivity|]. split; [|split; [|split; assumption]].
  - constructor; [reflexivity|].
    eapply Forall_impl; [|exact Hall]. cbn beta. now intros x [Hx _].
  - f_equal.
    rewrite <- (length_map call_type), <- Hty, length_map.
    clear - Hall. induction Hall as [|x l [_ Hx] _ IH]; cbn; [reflexivity|].
    now rewrite Hx, IH.
Qed.

(** X2.  With a clock that never goes back, the terminal event of [done]
    and of [failed] carries under [durationMs] the time between the
    started event and itself, which is never negative; the terminal event
    of [skip] and of [review] carries no duration.  This is about a
    terminal call that builds its event: every one but a [failed] whose
    [String(error)] throws. *)
Theorem duration_is_time_since_start :
  forall (S : Type) (clock : nat -> Z)
         (sendFn : list IngestEvent -> M S unit)
         (id0 : string) (options : JobOptions) (ticks0 : nat) (ext0 : S)
         (progress : list (string + EventOptions)) (t : Terminal),
    (forall i j, (i <= j)%nat -> clock i <= clock j) ->
    builds_event t = true ->
    let st :=
      run_calls clock sendFn (map CEvent progress ++ [CTerminal t])
        (new_Job clock id0 options ticks0 ext0) in
    exists started middle ended,
      _events (the_job st) = started :: middle ++ [ended] /\
      type started = job_started /\
      type ended = terminal_type t /\
      0 <= timestamp ended - timestamp started /\
      data_get "durationMs" ended
      = (if measures_duration t
         then Some (JNum (timestamp ended - timestamp started))
         else None).
Proof.
  intros S clock sendFn id0 options ticks0 ext0 progress t Hmono Hb st.
  set (st0 := new_Job clock id0 options ticks0 ext0).
  set (st1 := run_calls clock sendFn (map CEvent progress) st0).
  assert (Hst : st = snd (terminal clock sendFn t st1))
    by (unfold st, st1; now rewrite run_calls_app).
  destruct (@timeline_new S clock Hmono id0 options ticks0 ext0)
    as (e0 & _ & Hty0 & Hinv).
  apply (@timeline_run S clock sendFn Hmono e0 (map CEvent progress))
    in Hinv.
  fold st0 st1 in Hinv. destruct Hinv as ((middle & Hev1) & _ & Hall).
  destruct (@run_calls_open S clock sendFn (map CEvent progress) st0 eq_refl)
    as (_ & _ & _ & _ & _ & Hopen).
  fold st1 in Hopen.
  assert (Hnone : existsb is_terminal_call (map CEvent progress) = false)
    by (clear; induction progress; cbn; auto).
  rewrite Hnone in Hopen.
  destruct (@terminal_open_duration S clock sendFn t st1 e0 middle
              Hopen Hb Hev1) as (e & Hev & Hty & Hts & Hdur).
  exists e0, middle, e. rewrite Hst, Hev, Hev1.
  split; [reflexivity|]. split; [exact Hty0|]. split; [exact Hty|].
  split; [|exact Hdur].
  rewrite Hev1 in Hall. inversion Hall as [|? ? He0 _]; subst.
  specialize (He0 (ticks st1) (Nat.le_refl _)). rewrite Hts. lia.
Qed.

(** A run of X2: a progress event, then [done], on the sample clock. *)
Lemma duration_is_time_since_start_witness :
  let st :=
    run_calls sample_clock (fun _ : list IngestEvent => @ret unit unit tt)
      (map CEvent [inl "Step 1"] ++ [CTerminal (TDone JUndefined)])
      (new_Job sample_clock "a" sample_job_options 0 tt) in
  exists started middle ended,
    _events (the_job st) = started :: middle ++ [ended] /\
    type started = job_started /\
    type ended = job_done /\
    0 <= timestamp ended - timestamp started /\
    data_get "durationMs" ended
    = Some (JNum (timestamp ended - timestamp started)).
Proof.
  exact (@duration_is_time_since_start unit sample_clock
           (fun _ => ret tt) "a" sample_job_options 0%nat tt
           [inl "Step 1"] (TDone JUndefined)
           ltac:(unfold sample_clock; intros; lia) eq_refl).
Defined.

(** X3.  What the started event says about the job: [jobType] is always
    there; [entityType], [entityId] and [entityRef] are there exactly when
    the entity gives a non-empty string for them; [metadata] is there
    exactly when the metadata object has at least one key. *)
Theorem started_payload :
  forall options : JobOptions,
    let d := started_data options in
    obj_get "jobType" d = Some (JStr (jo_type options)) /\
    obj_get "entityType" d
    = match jo_entity options with
      | Some en =>
          if truthy_str (entity_type en)
          then Some (JStr (entity_type en)) else None
      | None => None
      end /\
    obj_get "entityId" d
    = match jo_entity options with
      | Some en =>
          if truthy_str (entity_id en)
          then Some (JStr (entity_id en)) else None
      | None => None
      end /\
    obj_get "entityRef" d
    = match jo_entity options with
      | Some {| entity_ref := Some r |} =>
          if truthy_str r then Some (JStr r) else None
      | _ => None
      end /\
    obj_get "metadata" d
    = match jo_metadata options with
      | Some (kv :: md) => Some (JObj (kv :: md))
      | _ => None
      end.
Proof.
  intros [ty [[ety eid [eref|]]|] ext [[|kv md]|]]; cbv zeta;
    unfold started_data, obj_spread_if;
    cbn [jo_type jo_entity jo_metadata entity_type entity_id entity_ref];
    try destruct (truthy_str ety); try destruct (truthy_str eid);
    try destruct (truthy_str eref);
    repeat split; reflexivity.
Qed.

(** X4.  The payload of a progress event: a key of the explicit [data]
    holds the value [data] gives it, also when the key is [message];
    otherwise [message] holds the message when that is a non-empty string;
    any other key is absent. *)
Theorem progress_payload :
  forall (S : Type) (clock : nat -> Z)
         (a : string + EventOptions) (st : JState S),
    _completed (the_job st) = false ->
    let opts :=
      match a with
      | inl m => {| eo_message := Some m; eo_data := None |}
      | inr o => o
      end in
    exists e,
      _events (the_job (snd (event clock a st)))
      = _events (the_job st) ++ [e] /\
      type e = job_event /\
      forall k,
        data_get k e
        = match obj_get k (rev (or_default (eo_data opts) [])) with
          | Some v => Some v
          | None =>
              match eo_message opts with
              | Some m =>
                  if String.eqb k "message" && truthy_str m
                  then Some (JStr m) else None
              | None => None
              end
          end.
Proof.
  intros S clock a st Hc opts.
  unfold event, bind, this, Date_now, events_push, modify.
  rewrite Hc. cbn. fold opts.
  eexists. split; [reflexivity|]. split; [reflexivity|].
  intros k. unfold data_get. cbn [data]. rewrite obj_get_spread.
  unfold or_default.
  destruct (eo_data opts) as [d|]; cbn [rev obj_get];
    [destruct (obj_get k (rev d)); [reflexivity|] |];
    (destruct (eo_message opts) as [m|]; [|reflexivity]);
    unfold obj_spread_if; destruct (truthy_str m); cbn;
    rewrite ?andb_false_r, ?andb_true_r; try reflexivity;
    now destruct (String.eqb k "message").
Qed.

(** A run of X4: [data] brings its own [message], which wins over the
    message of the call. *)
Lemma progress_payload_witness :
  let st := new_Job sample_clock "a" sample_job_options 0 tt in
  let a : string + EventOptions :=
    inr {| eo_message := Some "Progress";
           eo_data := Some [("step", JNum 1); ("message", JStr "mine")] |} in
  map (data_get "message")
    (_events (the_job (snd (event sample_clock a st))))
  = [None; Some (JStr "mine")].
Proof.
  intros st a.
  destruct (@progress_payload unit sample_clock a st eq_refl)
    as (e & Hev & _ & Hget).
  rewrite Hev, map_app. cbn [map]. now rewrite (Hget "message").
Defined.

(* ================================================================== *)
(** * Further properties of the transport *)

Section BackoffFacts.

Lemma backoff_bounds (attempt : Z) :
  0 <= attempt -> 1000 <= backoff attempt <= 10000.
Proof.
  intros Ha. unfold backoff.
  pose proof (Z.pow_pos_nonneg 2 attempt ltac:(lia) Ha). lia.
Qed.

Lemma backoff_mono (a b : Z) :
  0 <= a <= b -> backoff a <= backoff b.
Proof.
  intros Hab. unfold backoff.
  pose proof (Z.pow_le_mono_r 2 a b ltac:(lia) ltac:(lia)). lia.
Qed.

Lemma attempts_trace_more (request : Effect) (attempt : Z) (m : nat) :
  attempts_trace request attempt (Datatypes.S (Datatypes.S m))
  = request :: Sleep (backoff attempt)
    :: attempts_trace request (attempt + 1) (Datatypes.S m).
Proof.
  reflexivity.
Qed.

Lemma attempts_trace_fetches (url auth : string) (body : list IngestEvent)
    (n : nat) :
  forall attempt : Z,
    fetch_count (attempts_trace (Fetch url auth body) attempt n) = n.
Proof.
  induction n as [|[|m] IH]; intros attempt; try reflexivity.
  rewrite attempts_trace_more.
  change (fetch_count (Fetch url auth body :: Sleep (backoff attempt)
                       :: attempts_trace (Fetch url auth body)
                            (attempt + 1) (Datatypes.S m)))
    with (Datatypes.S
            (fetch_count (attempts_trace (Fetch url auth body)
                            (attempt + 1) (Datatypes.S m)))).
  now rewrite IH.
Qed.

Lemma attempts_trace_observed (url auth : string) (body : list IngestEvent)
    (n : nat) :
  forall attempt : Z,
    observed (attempts_trace (Fetch url auth body) attempt n) = [].
Proof.
  induction n as [|[|m] IH]; intros attempt; try reflexivity.
  rewrite attempts_trace_more. cbn [observed]. apply IH.
Qed.

Lemma attempts_trace_bodies (url auth : string) (body : list IngestEvent)
    (n : nat) :
  forall attempt : Z,
    fetch_bodies (attempts_trace (Fetch url auth body) attempt n)
    = repeat body n.
Proof.
  induction n as [|[|m] IH]; intros attempt; try reflexivity.
  rewrite attempts_trace_more. cbn [fetch_bodies]. now rewrite IH.
Qed.

(** The sleeps of a run of attempts: one between two requests, each the
    backoff of the attempt before it. *)
Lemma attempts_trace_sleeps (url auth : string) (body : list IngestEvent)
    (n : nat) :
  forall attempt : Z,
    sleeps (attempts_trace (Fetch url auth body) attempt n)
    = map (fun i => backoff (attempt + Z.of_nat i)) (seq 0 (Nat.pred n)).
Proof.
  induction n as [|[|m] IH]; intros attempt; try reflexivity.
  rewrite attempts_trace_more. cbn [sleeps]. rewrite IH.
  cbn [Nat.pred seq map]. rewrite Z.add_0_r. f_equal.
  rewrite <- seq_shift, map_map. apply map_ext. intros i.
  f_equal. lia.
Qed.

End BackoffFacts.

Section SendSchedule.

Variable net : nat -> FetchOutcome.

(** An attempt that falls through records the failure and goes on. *)
Lemma attempt_once_falls (events : list IngestEvent) (s : St) (e : Error) :
  falls_through (net (fetch_count (trace s))) = Some e ->
  attempt_once net events s
  = (LoopNext e, emit (request_of (_options (client s)) events) s).
Proof.
  unfold attempt_once, falls_through, success_response, request_of.
  destruct (net (fetch_count (trace s))) as [r | [err | str]].
  - destruct (ok r || (status r =? 207)); [discriminate|].
    destruct ((status r =? 400) || (status r =? 401)).
    + destruct (json r); try discriminate. now intros [= <-].
    + now intros [= <-].
  - now intros [= <-].
  - now intros [= <-].
Qed.

(** The trace of a loop that has all its iterations before it: some
    number of requests, at most one per iteration and at least one if
    there is an iteration, with the backoff between two of them. *)
Lemma send_loop_schedule (events : list IngestEvent) (fuel : nat) :
  forall (attempt : Z) (last : option Error) (s : St),
    Z.of_nat fuel = maxRetries (_options (client s)) + 1 - attempt ->
    exists n,
      (n <= fuel)%nat /\
      ((1 <= fuel)%nat -> (1 <= n)%nat) /\
      trace (snd (send_loop net fuel events attempt last s))
      = trace s
        ++ attempts_trace (request_of (_options (client s)) events)
             attempt n.
Proof.
  induction fuel as [|fuel IH]; intros attempt last s Hfuel.
  - exists 0%nat. cbn. rewrite app_nil_r. repeat split; lia.
  - rewrite Nat2Z.inj_succ in Hfuel. cbn [send_loop].
    destruct (Z.leb_spec attempt (maxRetries (_options (client s))));
      [|lia].
    pose proof (attempt_once_state net events s) as Hst.
    destruct (attempt_once net events s) as [[| e | e] s1];
      cbn [snd] in Hst; subst s1.
    + exists 1%nat. cbn. repeat split; lia.
    + exists 1%nat. cbn. repeat split; lia.
    + cbn [emit client].
      destruct (Z.ltb_spec attempt (maxRetries (_options (client s))))
        as [Hlt | Hge].
      * match goal with
        | |- context [send_loop net fuel events ?a ?l ?x] =>
            destruct (IH a l x) as (n & Hn & Hone & Htr)
        end.
        { cbn [emit client]. lia. }
        destruct n as [|m]; [lia|].
        exists (Datatypes.S (Datatypes.S m)).
        rewrite Htr. cbn [emit client trace attempts_trace].
        rewrite <- !app_assoc. unfold request_of. cbn [app].
        repeat split; lia.
      * match goal with
        | |- context [send_loop net fuel events ?a ?l ?x] =>
            destruct (IH a l x) as (n & Hn & _ & Htr)
        end.
        { cbn [emit client]. lia. }
        assert (n = 0%nat) by lia. subst n.
        exists 1%nat. rewrite Htr. cbn [emit client trace attempts_trace].
        rewrite app_nil_r. unfold request_of.
        repeat split; lia.
Qed.

(** The whole of what one [_send] does to the world. *)
Lemma send_schedule (events : list IngestEvent) (s : St) :
  let o := _options (client s) in
  exists n tail,
    (n <= Z.to_nat (maxRetries o + 1))%nat /\
    trace (snd (_send net events s))
    = trace s ++ attempts_trace (request_of o events) 0 n ++ tail /\
    ((fst (_send net events s) = Ok tt /\ tail = []) \/
     (exists lastError,
         fst (_send net events s) = Throw (thrown_after_report o lastError) /\
         tail = map OnError (report o lastError) /\
         (1 <= n)%nat)) /\
    ((disabled o = true \/ events = [] \/ maxRetries o < 0) -> n = 0%nat) /\
    (disabled o = false -> events <> [] -> 0 <= maxRetries o ->
     (1 <= n)%nat).
Proof.
  cbv zeta. unfold _send. cbv beta zeta.
  destruct (disabled (_options (client s))) eqn:Hd.
  { exists 0%nat, []. cbn. rewrite app_nil_r.
    repeat split; auto; try lia; discriminate. }
  destruct events as [|ev events'].
  { exists 0%nat, []. cbn. rewrite app_nil_r.
    repeat split; auto; try lia; congruence. }
  cbn [orb List.length].
  replace (Z.of_nat (Datatypes.S (List.length events')) =? 0) with false
    by (symmetry; apply Z.eqb_neq; lia).
  destruct (Z.leb_spec 0 (maxRetries (_options (client s)))) as [Hpos | Hneg].
  - destruct (send_loop_schedule (ev :: events')
                (Z.to_nat (maxRetries (_options (client s)) + 1)) 0 None s)
      as (n & Hn & Hone & Htr); [lia|].
    assert (H1 : (1 <= n)%nat) by (apply Hone; lia).
    destruct (send_loop net _ (ev :: events') 0 None s)
      as [[|[lastError|]] s'] eqn:Hloop; cbn [snd] in Htr.
    + exists n, []. rewrite app_nil_r. cbn [fst snd].
      repeat split; auto; intros [Hx | [Hx | Hx]];
        try discriminate; lia.
    + exists n, (map OnError
                   (report (_options (client s)) lastError)).
      assert (Hend :
        fst (match onError (_options (client s)) with
             | Some f =>
                 match f lastError with
                 | Some thrown =>
                     (@Throw unit thrown, emit (OnError lastError) s')
                 | None => (Throw lastError, emit (OnError lastError) s')
                 end
             | None => (Throw lastError, s')
             end)
        = Throw (thrown_after_report (_options (client s)) lastError) /\
        trace (snd (match onError (_options (client s)) with
                    | Some f =>
                        match f lastError with
                        | Some thrown =>
                            (@Throw unit thrown,
                             emit (OnError lastError) s')
                        | None =>
                            (Throw lastError, emit (OnError lastError) s')
                        end
                    | None => (Throw lastError, s')
                    end))
        = trace s'
          ++ map OnError (report (_options (client s)) lastError)).
      { unfold thrown_after_report, report.
        destruct (onError (_options (client s))) as [f|];
          [destruct (f lastError)|]; cbn; rewrite ?app_nil_r; auto. }
      destruct Hend as [Hfst Htrace]. rewrite Hfst, Htrace, Htr.
      rewrite <- app_assoc.
      split; [exact Hn|]. split; [reflexivity|].
      split; [right; exists lastError; auto|].
      split; [intros [Hx | [Hx | Hx]]; try discriminate; lia | auto].
    + exists n, []. rewrite app_nil_r. cbn [fst snd].
      repeat split; auto; intros [Hx | [Hx | Hx]];
        try discriminate; lia.
  - replace (Z.to_nat (maxRetries (_options (client s)) + 1)) with 0%nat
      by lia.
    exists 0%nat, []. cbn. rewrite app_nil_r.
    repeat split; auto; try lia.
Qed.

End SendSchedule.

Section TraceFacts2.

Lemma sleeps_app (t1 t2 : list Effect) :
  sleeps (t1 ++ t2) = sleeps t1 ++ sleeps t2.
Proof.
  induction t1 as [|e t1 IH]; cbn; [reflexivity|].
  destruct e; cbn; now rewrite IH.
Qed.

Lemma report_trace (o : Options) (e : Error) :
  fetch_bodies (map OnError (report o e)) = [] /\
  sleeps (map OnError (report o e)) = [] /\
  observed (map OnError (report o e)) = report o e.
Proof.
  unfold report. destruct (onError o); cbn; auto.
Qed.

End TraceFacts2.

(** X5.  Whatever the transport does, one [_send] makes at most
    [maxRetries + 1] requests, all to [baseUrl + "/v1/events/batch"] with
    the bearer credential and the same events; between two requests it
    sleeps [min(1000 * 2^i, 10000)] ms, [i] being the number of the attempt
    that failed, and it does not sleep after the last request.  After the
    requests comes nothing when [_send] resolves, and the one call of the
    observer, if there is an observer, when it throws. *)
Theorem send_requests_and_backoff :
  forall (net : nat -> FetchOutcome) (events : list IngestEvent) (s : St),
    let o := _options (client s) in
    let r := _send net events s in
    exists n tail,
      (n <= Z.to_nat (maxRetries o + 1))%nat /\
      client (snd r) = client s /\
      trace (snd r)
      = trace s ++ attempts_trace (request_of o events) 0 n ++ tail /\
      ((fst r = Ok tt /\ tail = []) \/
       (exists lastError,
           fst r = Throw (thrown_after_report o lastError) /\
           tail = map OnError (report o lastError))).
Proof.
  intros net events s o r.
  destruct (send_schedule net events s)
    as (n & tail & Hn & Htr & Hend & _).
  exists n, tail. split; [exact Hn|].
  split; [apply send_client|]. split; [exact Htr|].
  destruct Hend as [Hok | (lastError & Hthrow & Htail & _)];
    [now left | right; now exists lastError].
Qed.

(** X6.  In numbers: the requests one [_send] adds are at most
    [maxRetries + 1]; it sleeps once less than it makes requests; every
    sleep lasts between 1 and 10 seconds and none is shorter than the one
    before. *)
Theorem send_attempts_and_sleeps_bounded :
  forall (net : nat -> FetchOutcome) (events : list IngestEvent) (s : St),
    let r := _send net events s in
    exists n slept,
      fetch_count (trace (snd r)) = (fetch_count (trace s) + n)%nat /\
      (n <= Z.to_nat (maxRetries (_options (client s)) + 1))%nat /\
      sleeps (trace (snd r)) = sleeps (trace s) ++ slept /\
      List.length slept = Nat.pred n /\
      Forall (fun ms => 1000 <= ms <= 10000) slept /\
      StronglySorted Z.le slept.
Proof.
  intros net events s r.
  destruct (send_schedule net events s)
    as (n & tail & Hn & Htr & Hend & _).
  exists n, (map (fun i => backoff (0 + Z.of_nat i)) (seq 0 (Nat.pred n))).
  assert (Htail : fetch_count tail = 0%nat /\ sleeps tail = []).
  { destruct Hend as [[_ ->] | (e & _ & -> & _)]; [now split|].
    rewrite fetch_count_bodies.
    destruct (report_trace (_options (client s)) e) as (-> & -> & _).
    now split. }
  destruct Htail as [Hf Hs].
  unfold r. rewrite Htr. unfold request_of.
  rewrite !fetch_count_app, !sleeps_app, attempts_trace_fetches,
    attempts_trace_sleeps, Hf, Hs, app_nil_r, Nat.add_0_r.
  split; [reflexivity|]. split; [exact Hn|]. split; [reflexivity|].
  split; [now rewrite length_map, length_seq|].
  generalize (Nat.pred n). clear. intros m.
  assert (Hgen : forall (a : nat) (m : nat),
             Forall (fun ms => 1000 <= ms <= 10000)
               (map (fun i => backoff (0 + Z.of_nat i)) (seq a m)) /\
             StronglySorted Z.le
               (map (fun i => backoff (0 + Z.of_nat i)) (seq a m)) /\
             Forall (fun ms => backoff (Z.of_nat a) <= ms)
               (map (fun i => backoff (0 + Z.of_nat i)) (seq a m))).
  { clear. intros a m. revert a.
    induction m as [|m IH]; intros a; cbn [seq map].
    - repeat split; constructor.
    - destruct (IH (Datatypes.S a)) as (Hb & Hsorted & Hlow).
      split; [|split].
      + constructor; [apply backoff_bounds; lia | exact Hb].
      + constructor; [exact Hsorted|].
        eapply Forall_impl; [|exact Hlow]. cbn beta. intros ms Hms.
        etransitivity; [|exact Hms]. apply backoff_mono. lia.
      + constructor; [apply backoff_mono; lia|].
        eapply Forall_impl; [|exact Hlow]. cbn beta. intros ms Hms.
        etransitivity; [|exact Hms]. apply backoff_mono. lia. }
  destruct (Hgen 0%nat m) as (Hb & Hsorted & _). now split.
Qed.

(** X7.  [_send] makes no request at all exactly when the client is
    disabled, or there are no events, or [maxRetries] is negative; in each
    of these cases it resolves and leaves everything as it was. *)
Theorem send_without_request :
  forall (net : nat -> FetchOutcome) (events : list IngestEvent) (s : St),
    let o := _options (client s) in
    (fetch_count (trace (snd (_send net events s))) = fetch_count (trace s)
     <-> disabled o = true \/ events = [] \/ maxRetries o < 0) /\
    (disabled o = true \/ events = [] \/ maxRetries o < 0 ->
     _send net events s = (Ok tt, s)).
Proof.
  intros net events s o.
  destruct (send_schedule net events s)
    as (n & tail & Hn & Htr & Hend & Hzero & Hone).
  fold o in Hzero, Hone.
  assert (Hcount : fetch_count (trace (snd (_send net events s)))
                   = (fetch_count (trace s) + n)%nat).
  { rewrite Htr. unfold request_of.
    rewrite !fetch_count_app, attempts_trace_fetches.
    destruct Hend as [[_ ->] | (e & _ & -> & _)]; [cbn; lia|].
    rewrite (fetch_count_bodies (map OnError _)).
    destruct (report_trace (_options (client s)) e) as (-> & _). cbn. lia. }
  split; [split|].
  - intros Hsame.
    destruct (disabled o) eqn:Hd; [now left|].
    destruct events as [|ev events']; [right; now left|].
    destruct (Z.ltb_spec (maxRetries o) 0); [right; now right|].
    assert ((1 <= n)%nat) by (apply Hone; [reflexivity|discriminate|lia]).
    lia.
  - intros Hcase. rewrite Hcount, (Hzero Hcase). lia.
  - intros Hcase. unfold _send. cbv beta zeta. fold o.
    destruct Hcase as [Hd | [-> | Hneg]].
    + now rewrite Hd.
    + now rewrite orb_true_r.
    + destruct (disabled o || _); [reflexivity|].
      now replace (Z.to_nat (maxRetries o + 1)) with 0%nat by lia.
Qed.

(** A run of X7: a disabled client, a transport that would fail. *)
Lemma send_without_request_witness :
  let o :=
    {| apiKey := "sk_dev_test"; baseUrl := "http://localhost:3001";
       mode := per_job; batchInterval := 2000; batchSize := 100;
       maxRetries := 3; disabled := true; onError := None |} in
  let s := sample_state o [] in
  _send (always response_500) (sample_job_events "a" 0) s = (Ok tt, s).
Proof.
  intros o s.
  destruct (@send_without_request (always response_500)
              (sample_job_events "a" 0) s) as [_ Hnoop].
  apply Hnoop. left. reflexivity.
Defined.

(** What one [_send] adds to the calls of the observer, by its outcome. *)
Lemma send_observed (net : nat -> FetchOutcome)
    (events : list IngestEvent) (s : St) :
  match fst (_send net events s) with
  | Ok _ => observed (trace (snd (_send net events s))) = observed (trace s)
  | Throw e =>
      exists lastError,
        e = thrown_after_report (_options (client s)) lastError /\
        observed (trace (snd (_send net events s)))
        = observed (trace s) ++ report (_options (client s)) lastError
  end.
Proof.
  destruct (send_schedule net events s)
    as (n & tail & _ & Htr & Hend & _).
  rewrite Htr, !observed_app. unfold request_of.
  rewrite attempts_trace_observed.
  destruct Hend as [[-> ->] | (e & -> & -> & _)].
  - cbn. now rewrite app_nil_r.
  - exists e. split; [reflexivity|].
    destruct (report_trace (_options (client s)) e) as (_ & _ & ->).
    reflexivity.
Qed.

(** X8.  The observer is called at most once by one [_send]: not at all
    when it resolves, and once, with the last failure recorded, when it
    throws and there is an observer.  What [_send] throws is that failure,
    unless the observer throws itself. *)
Theorem send_reports_once :
  forall (net : nat -> FetchOutcome) (events : list IngestEvent) (s : St),
    let o := _options (client s) in
    let r := _send net events s in
    match fst r with
    | Ok _ => observed (trace (snd r)) = observed (trace s)
    | Throw e =>
        exists lastError,
          e = thrown_after_report o lastError /\
          observed (trace (snd r))
          = observed (trace s) ++ report o lastError
    end.
Proof.
  intros net events s o r. apply send_observed.
Qed.

Section Retries.

Variable net : nat -> FetchOutcome.

(** When every attempt falls through, the loop runs all its iterations
    and ends holding the failure of the last one. *)
Lemma send_loop_falls (err : nat -> Error) (events : list IngestEvent)
    (fuel : nat) :
  (forall k, falls_through (net k) = Some (err k)) ->
  forall (attempt : Z) (last : option Error) (s : St),
    Z.of_nat fuel = maxRetries (_options (client s)) + 1 - attempt ->
    fst (send_loop net fuel events attempt last s)
    = Fell (match fuel with
            | O => last
            | Datatypes.S n => Some (err (fetch_count (trace s) + n)%nat)
            end) /\
    fetch_count (trace (snd (send_loop net fuel events attempt last s)))
    = (fetch_count (trace s) + fuel)%nat.
Proof.
  intros Hfall.
  induction fuel as [|fuel IH]; intros attempt last s Hfuel.
  - cbn. split; [reflexivity | lia].
  - rewrite Nat2Z.inj_succ in Hfuel. cbn [send_loop].
    destruct (Z.leb_spec attempt (maxRetries (_options (client s))));
      [|lia].
    rewrite (attempt_once_falls net events s (Hfall _)).
    match goal with
    | |- context [send_loop net fuel events ?a ?l ?x] =>
        set (s2 := x);
        assert (Hs2 : _options (client s2) = _options (client s) /\
                      fetch_count (trace s2)
                      = Datatypes.S (fetch_count (trace s)));
        [| destruct (IH a l s2) as (Hexit & Hcount) ]
    end.
    { subst s2. destruct (attempt <? _); cbn [emit client trace];
        rewrite ?fetch_count_app; cbn; split; try reflexivity; lia. }
    { destruct Hs2 as [-> _]. lia. }
    destruct Hs2 as [_ Hn2]. rewrite Hexit, Hcount, Hn2.
    split; [|lia]. destruct fuel as [|n].
    + now rewrite Nat.add_0_r.
    + now replace (Datatypes.S (fetch_count (trace s)) + n)%nat
        with (fetch_count (trace s) + Datatypes.S n)%nat by lia.
Qed.

(** So [_send] makes all its attempts and throws the failure of the
    last. *)
Lemma send_all_fall (err : nat -> Error) (events : list IngestEvent)
    (s : St) :
  (forall k, falls_through (net k) = Some (err k)) ->
  disabled (_options (client s)) = false ->
  events <> [] ->
  0 <= maxRetries (_options (client s)) ->
  let o := _options (client s) in
  let lastError :=
    err (fetch_count (trace s) + Z.to_nat (maxRetries o))%nat in
  fst (_send net events s) = Throw (thrown_after_report o lastError) /\
  fetch_count (trace (snd (_send net events s)))
  = (fetch_count (trace s) + Z.to_nat (maxRetries o + 1))%nat /\
  observed (trace (snd (_send net events s)))
  = observed (trace s) ++ report o lastError.
Proof.
  intros Hfall Hen Hev Hretries. cbv zeta.
  set (lastError :=
         err (fetch_count (trace s)
              + Z.to_nat (maxRetries (_options (client s))))%nat).
  unfold _send. cbv beta zeta. rewrite Hen.
  destruct events as [|ev events']; [congruence|].
  cbn [orb List.length].
  replace (Z.of_nat (Datatypes.S (List.length events')) =? 0) with false
    by (symmetry; apply Z.eqb_neq; lia).
  destruct (send_loop_falls err (ev :: events')
              (Z.to_nat (maxRetries (_options (client s)) + 1))
              Hfall 0 None s) as [Hexit Hcount]; [lia|].
  destruct (send_loop_frame net
              (Z.to_nat (maxRetries (_options (client s)) + 1))
              (ev :: events') 0 None s) as [_ (t & Ht & Hobs)].
  replace (Z.to_nat (maxRetries (_options (client s)) + 1))
    with (Datatypes.S (Z.to_nat (maxRetries (_options (client s))))) in *
    by lia.
  fold lastError in Hexit.
  destruct (send_loop net _ (ev :: events') 0 None s) as [x s'].
  cbn [fst snd] in Hexit, Hcount, Ht. subst x.
  assert (Ho : observed (trace s') = observed (trace s))
    by (now rewrite Ht, observed_app, Hobs, app_nil_r).
  unfold thrown_after_report, report.
  destruct (onError (_options (client s))) as [f|];
    [destruct (f lastError)|];
    cbn [fst snd emit trace or_default];
    rewrite ?fetch_count_app, ?observed_app, Hcount, Ho;
    cbn; rewrite ?Nat.add_0_r, ?app_nil_r; auto.
Qed.

(** When the first [k] attempts fall through and the next one, still
    within the limit, is answered with a success, the loop returns after
    [k + 1] requests. *)
Lemma send_loop_recovers (events : list IngestEvent) (r : Response)
    (k : nat) :
  success_response r = true ->
  forall (fuel : nat) (attempt : Z) (last : option Error) (s : St),
    (k < fuel)%nat ->
    attempt + Z.of_nat k <= maxRetries (_options (client s)) ->
    (forall i, (i < k)%nat ->
               falls_through (net (fetch_count (trace s) + i)%nat) <> None) ->
    net (fetch_count (trace s) + k)%nat = Resolves r ->
    fst (send_loop net fuel events attempt last s) = Returned /\
    fetch_count (trace (snd (send_loop net fuel events attempt last s)))
    = (fetch_count (trace s) + Datatypes.S k)%nat.
Proof.
  intros Hok.
  induction k as [|k IH]; intros fuel attempt last s Hfuel Hmax Hfall Hnet;
    (destruct fuel as [|fuel]; [lia|]); cbn [send_loop];
    (destruct (Z.leb_spec attempt (maxRetries (_options (client s))));
     [|lia]).
  - rewrite Nat.add_0_r in Hnet. unfold attempt_once. rewrite Hnet.
    unfold success_response in Hok. rewrite Hok.
    cbn [fst snd emit trace]. rewrite fetch_count_app. cbn.
    split; [reflexivity | lia].
  - destruct (falls_through (net (fetch_count (trace s)))) as [e|] eqn:He.
    2: { exfalso. apply (Hfall 0%nat); [lia|].
         now rewrite Nat.add_0_r. }
    rewrite (attempt_once_falls net events s He).
    match goal with
    | |- context [send_loop net fuel events ?a ?l ?x] =>
        set (s2 := x);
        assert (Hs2 : _options (client s2) = _options (client s) /\
                      fetch_count (trace s2)
                      = Datatypes.S (fetch_count (trace s)));
        [| destruct (IH fuel a l s2) as (Hexit & Hcount) ]
    end.
    { subst s2. destruct (attempt <? _); cbn [emit client trace];
        rewrite ?fetch_count_app; cbn; split; try reflexivity; lia. }
    { lia. }
    { destruct Hs2 as [-> _]. lia. }
    { intros i Hi. destruct Hs2 as [_ ->].
      replace (Datatypes.S (fetch_count (trace s)) + i)%nat
        with (fetch_count (trace s) + Datatypes.S i)%nat by lia.
      apply Hfall. lia. }
    { destruct Hs2 as [_ ->].
      now replace (Datatypes.S (fetch_count (trace s)) + k)%nat
        with (fetch_count (trace s) + Datatypes.S k)%nat by lia. }
    destruct Hs2 as [_ Hn2]. rewrite Hexit, Hcount, Hn2.
    split; [reflexivity | lia].
Qed.

End Retries.

(** X9.  Failures of the network itself are retried like a 5xx: when every
    call of [fetch] rejects (no connection, or the abort after the timeout),
    an enabled client with [maxRetries >= 0] makes [maxRetries + 1] calls
    for a non-empty list and then reports and throws the last rejection:
    the [Error] thrown, or for any other thrown value an [Error] whose
    message is its [String(...)]. *)
Theorem send_rejections_use_all_attempts :
  forall (thrown : nat -> Error + string) (events : list IngestEvent)
         (s : St),
    disabled (_options (client s)) = false ->
    events <> [] ->
    0 <= maxRetries (_options (client s)) ->
    let net := fun k => Rejects (thrown k) in
    let o := _options (client s) in
    let lastError :=
      rejection_error
        (thrown (fetch_count (trace s) + Z.to_nat (maxRetries o))%nat) in
    let r := _send net events s in
    fst r = Throw (thrown_after_report o lastError) /\
    fetch_count (trace (snd r))
    = (fetch_count (trace s) + Z.to_nat (maxRetries o + 1))%nat /\
    observed (trace (snd r)) = observed (trace s) ++ report o lastError.
Proof.
  intros thrown events s Hen Hev Hretries net o lastError r.
  apply (@send_all_fall net (fun k => rejection_error (thrown k))
           events s); try assumption.
  intros k. unfold net. cbn. now destruct (thrown k).
Qed.

(** A run of X9 after the test 'handles fetch network errors'. *)
Lemma send_rejections_use_all_attempts_witness :
  let s := sample_state (sample_options per_job 100 0 (Some quiet_observer))
             [] in
  let r :=
    _send (fun _ => Rejects (inl (MkError "Network error")))
      (sample_job_events "a" 0) s in
  fst r = Throw (MkError "Network error") /\
  fetch_count (trace (snd r)) = 1%nat /\
  observed (trace (snd r)) = [MkError "Network error"].
Proof.
  exact (@send_rejections_use_all_attempts
           (fun _ => inl (MkError "Network error"))
           (sample_job_events "a" 0)
           (sample_state
              (sample_options per_job 100 0 (Some quiet_observer)) [])
           eq_refl ltac:(discriminate) ltac:(cbn; lia)).
Defined.

(** X10.  A success after transient failures is a success: when the first
    [k <= maxRetries] attempts fail in a way that is retried and the next
    one is answered with a 2xx or a 207, [_send] resolves after exactly
    [k + 1] requests and the observer is not called. *)
Theorem send_recovers_after_failures :
  forall (net : nat -> FetchOutcome) (events : list IngestEvent) (s : St)
         (r : Response) (k : nat),
    disabled (_options (client s)) = false ->
    events <> [] ->
    Z.of_nat k <= maxRetries (_options (client s)) ->
    (forall i, (i < k)%nat ->
               falls_through (net (fetch_count (trace s) + i)%nat) <> None) ->
    net (fetch_count (trace s) + k)%nat = Resolves r ->
    success_response r = true ->
    fst (_send net events s) = Ok tt /\
    fetch_count (trace (snd (_send net events s)))
    = (fetch_count (trace s) + Datatypes.S k)%nat /\
    observed (trace (snd (_send net events s))) = observed (trace s).
Proof.
  intros net events s r k Hen Hev Hk Hfall Hnet Hok.
  pose proof (send_observed net events s) as Hrep.
  assert (Hfst : fst (_send net events s) = Ok tt /\
                 fetch_count (trace (snd (_send net events s)))
                 = (fetch_count (trace s) + Datatypes.S k)%nat).
  { unfold _send. cbv beta zeta. rewrite Hen.
    destruct events as [|ev events']; [congruence|].
    cbn [orb List.length].
    replace (Z.of_nat (Datatypes.S (List.length events')) =? 0) with false
      by (symmetry; apply Z.eqb_neq; lia).
    destruct (@send_loop_recovers net (ev :: events') r k Hok
                (Z.to_nat (maxRetries (_options (client s)) + 1))
                0 None s) as [Hexit Hcount]; try assumption; try lia.
    destruct (send_loop net _ (ev :: events') 0 None s) as [x s'].
    cbn [fst snd] in *. subst x. auto. }
  destruct Hfst as [Hfst Hcount]. rewrite Hfst in Hrep. auto.
Qed.

(** A run of X10 after the test 'retries on 500 errors': a 500, a 503, then
    a 200. *)
Lemma send_recovers_after_failures_witness :
  let net := fun k : nat =>
    match k with
    | 0%nat => Resolves response_500
    | 1%nat => Resolves {| ok := false; status := 503; json := JsonValue None |}
    | _ => Resolves response_200
    end in
  let s := sample_state (sample_options per_job 100 3 (Some quiet_observer))
             [] in
  let r := _send net (sample_job_events "a" 0) s in
  fst r = Ok tt /\
  fetch_count (trace (snd r)) = 3%nat /\
  observed (trace (snd r)) = [].
Proof.
  intros net s r.
  apply (@send_recovers_after_failures net (sample_job_events "a" 0) s
           response_200 2%nat eq_refl ltac:(discriminate) ltac:(cbn; lia)).
  - intros [|[|i]] Hi; cbn; try discriminate. lia.
  - reflexivity.
  - reflexivity.
Defined.

(* ================================================================== *)
(** * Further properties of the dispatcher *)

Section DispatcherFacts.

Variable net : nat -> FetchOutcome.

Lemma send_disabled (events : list IngestEvent) (s : St) :
  disabled (_options (client s)) = true ->
  _send net events s = (Ok tt, s).
Proof.
  intros Hd. unfold _send. cbv beta zeta. now rewrite Hd.
Qed.

(** What [flush] does to the fields it does not own, and to the trace and
    the buffer, in terms of the [_send] it may make. *)
Lemma flush_cases (s : St) :
  (flush net s = (Ok tt, s) /\
   (_buffer (client s) = [] \/ _flushing (client s) = true)) \/
  (_buffer (client s) <> [] /\ _flushing (client s) = false /\
   trace (snd (flush net s))
   = trace (snd (_send net (_buffer (client s)) s)) /\
   _buffer (client (snd (flush net s)))
   = match fst (_send net (_buffer (client s)) s) with
     | Ok _ => []
     | Throw _ => _buffer (client s)
     end /\
   _flushing (client (snd (flush net s))) = false).
Proof.
  destruct (_flushing (client s)) eqn:Hf.
  - left. split; [apply flush_guard|]; now right.
  - destruct (_buffer (client s)) as [|ev b] eqn:Hb.
    + left. split; [apply flush_guard|]; now left.
    + right.
      destruct (flush_entered net s) as (Htr & Hbuf & Hfl & _);
        [rewrite Hb; discriminate | assumption |].
      rewrite Hb in Htr, Hbuf.
      repeat split; try assumption; discriminate.
Qed.

(** No operation changes the options. *)
Lemma op_keeps_options (o : Op) (s : St) :
  _options (client (snd (op net o s))) = _options (client s).
Proof.
  assert (Hif : forall (b : bool) (s' : St),
             _options (client (snd (if b then flush net s'
                                    else (Ok tt, s'))))
             = _options (client s')).
  { intros b s'. destruct b; [|reflexivity].
    now destruct (flush_keeps net s') as (Ho & _). }
  destruct o as [events | | |]; cbn [op].
  - unfold sendFn. destruct (mode (_options (client s))).
    + unfold try_catch, ret.
      pose proof (send_client net events s) as Hc.
      destruct (_send net events s) as [[[]|e] s']; cbn [snd] in *;
        now rewrite Hc.
    + unfold bind, modify, _ensureFlushTimer.
      cbn [on_client client with_buffer _flushTimer _shutdownCalled].
      destruct (_flushTimer (client s)) as [tm|];
        [|destruct (_shutdownCalled (client s))];
        rewrite Hif; reflexivity.
  - apply (Hif true s).
  - unfold shutdown.
    destruct (_shutdownCalled (client s)); [reflexivity|].
    cbn [on_client client with_shutdownCalled _flushTimer].
    destruct (_flushTimer (client s)) as [tm|]; rewrite Hif; reflexivity.
  - destruct (_flushTimer (client s)) as [tm|]; [|reflexivity].
    unfold timer_callback, try_catch.
    destruct (flush_keeps net s) as (Ho & _).
    now destruct (flush net s) as [[[]|e] s'].
Qed.

Lemma run_ops_keeps_options (os : list Op) :
  forall s : St,
    _options (client (run_ops net os s)) = _options (client s).
Proof.
  induction os as [|o os IH]; intros s; cbn [run_ops]; [reflexivity|].
  now rewrite IH, op_keeps_options.
Qed.

(** The timer callback does what [flush] does. *)
Lemma timer_callback_state (s : St) :
  snd (timer_callback net s) = snd (flush net s).
Proof.
  unfold timer_callback, try_catch.
  pose proof (flush_resolves net s) as Hres.
  destruct (flush net s) as [[[]|e] s']; [reflexivity | discriminate].
Qed.

(** On a disabled dispatcher no operation adds to the trace. *)
Lemma op_on_disabled (o : Op) (s : St) :
  disabled (_options (client s)) = true ->
  trace (snd (op net o s)) = trace s.
Proof.
  intros Hd.
  assert (Hflush : forall s', disabled (_options (client s')) = true ->
                              trace (snd (flush net s')) = trace s').
  { intros s' Hd'.
    destruct (flush_cases s') as [[-> _] | (_ & _ & Htr & _)];
      [reflexivity|].
    now rewrite Htr, send_disabled. }
  assert (Hif : forall (b : bool) (s' : St),
             disabled (_options (client s')) = true ->
             trace (snd (if b then flush net s' else (Ok tt, s')))
             = trace s').
  { intros b s' Hd'. destruct b; [now apply Hflush | reflexivity]. }
  destruct o as [events | | |]; cbn [op].
  - unfold sendFn. destruct (mode (_options (client s))).
    + unfold try_catch. now rewrite send_disabled.
    + unfold bind, modify, _ensureFlushTimer.
      cbn [on_client client with_buffer _flushTimer _shutdownCalled].
      destruct (_flushTimer (client s)) as [tm|];
        [|destruct (_shutdownCalled (client s))];
        rewrite Hif; cbn; auto.
  - now apply Hflush.
  - unfold shutdown.
    destruct (_shutdownCalled (client s)); [reflexivity|].
    cbn [on_client client with_shutdownCalled _flushTimer].
    destruct (_flushTimer (client s)) as [tm|]; rewrite Hif; cbn; auto.
  - destruct (_flushTimer (client s)) as [tm|]; [|reflexivity].
    rewrite timer_callback_state. now apply Hflush.
Qed.

End DispatcherFacts.

(** X11.  A disabled dispatcher never reaches the network: whatever jobs
    complete and whatever is called on it ([flush], [shutdown], the
    timer), in either mode, no request is made, no backoff slept and no
    observer called; a terminal call that builds its event resolves.  A
    flush of a disabled dispatcher, with none in flight, resolves and
    empties the buffer: the events are dropped. *)
Theorem disabled_dispatcher_is_silent :
  forall (net : nat -> FetchOutcome) (s : St),
    disabled (_options (client s)) = true ->
    (forall os, trace (run_ops net os s) = trace s) /\
    (forall (clock : nat -> Z) (t : Terminal) (j : Job) (n : nat),
        let st := {| the_job := j; ticks := n; ext := s |} in
        (builds_event t = true ->
         fst (terminal clock (sendFn net) t st) = Ok tt) /\
        trace (ext (snd (terminal clock (sendFn net) t st))) = trace s) /\
    (_flushing (client s) = false ->
     fst (flush net s) = Ok tt /\
     _buffer (client (snd (flush net s))) = []).
Proof.
  intros net s Hd. split; [|split].
  - intros os. revert s Hd.
    induction os as [|o os IH]; intros s Hd; cbn [run_ops]; [reflexivity|].
    rewrite IH; [now apply op_on_disabled|].
    now rewrite op_keeps_options.
  - intros clock t j n st.
    split; [apply terminal_resolves|].
    destruct (_completed j) eqn:Hc.
    + pose proof (@call_completed St clock (sendFn net) (CTerminal t) st Hc)
        as Hnoop.
      cbn [call] in Hnoop. now rewrite Hnoop.
    + destruct (builds_event t) eqn:Hb.
      * destruct (@terminal_open St clock (sendFn net) t st Hc Hb)
          as (e & k & _ & _ & _ & ->).
        cbn [snd ext].
        apply (@op_on_disabled net (OpSend (_events j ++ [e])) s Hd).
      * now destruct (@terminal_throws St clock (sendFn net) t st Hc Hb)
          as (err & x & k & _ & _ & _ & ->).
  - intros Hfl. split; [apply flush_resolves|].
    destruct (flush_cases net s) as [[-> [Hb | Hf]] | (_ & _ & _ & Hbuf & _)].
    + exact Hb.
    + congruence.
    + now rewrite Hbuf, send_disabled.
Qed.

(** A run of X11 after the test 'does not send events when disabled'. *)
Lemma disabled_dispatcher_is_silent_witness :
  let o :=
    {| apiKey := "sk_dev_test"; baseUrl := "http://localhost:3001";
       mode := batch; batchInterval := 2000; batchSize := 2;
       maxRetries := 3; disabled := true; onError := None |} in
  let s := sample_state o [] in
  trace (run_ops (always response_500)
           [OpSend (sample_job_events "a" 0); OpFlush; OpShutdown] s)
  = [].
Proof.
  intros o s.
  destruct (@disabled_dispatcher_is_silent (always response_500) s eq_refl)
    as (Hops & _).
  exact (Hops [OpSend (sample_job_events "a" 0); OpFlush; OpShutdown]).
Defined.

Section TimerFacts.

Variable net : nat -> FetchOutcome.

(** [flush], run or not, keeps a lawful timer lawful. *)
Lemma timer_ok_flush (b : bool) (s : St) :
  timer_ok (client s) ->
  timer_ok (client (snd (if b then flush net s else (Ok tt, s)))).
Proof.
  intros Hok. destruct b; [|exact Hok].
  destruct (flush_keeps net s) as (Ho & Htm & Hsd & _).
  unfold timer_ok in *. now rewrite Ho, Htm, Hsd.
Qed.

Lemma op_keeps_timer_ok (o : Op) (s : St) :
  timer_ok (client s) -> timer_ok (client (snd (op net o s))).
Proof.
  intros Hok.
  destruct o as [events | | |]; cbn [op].
  - unfold sendFn. destruct (mode (_options (client s))) eqn:Hmode.
    + unfold try_catch, ret.
      pose proof (send_client net events s) as Hc.
      destruct (_send net events s) as [[[]|e] s']; cbn [snd] in *;
        now rewrite Hc.
    + unfold bind, modify, _ensureFlushTimer.
      cbn [on_client client with_buffer _flushTimer _shutdownCalled].
      destruct (_flushTimer (client s)) as [tm|] eqn:Htm;
        [|destruct (_shutdownCalled (client s)) eqn:Hsd];
        apply timer_ok_flush; unfold timer_ok in *; cbn;
        rewrite ?Htm in *; auto.
  - now apply (timer_ok_flush true).
  - unfold shutdown.
    destruct (_shutdownCalled (client s)) eqn:Hsd; [exact Hok|].
    cbn [on_client client with_shutdownCalled _flushTimer].
    destruct (_flushTimer (client s)) as [tm|] eqn:Htm;
      apply timer_ok_flush; unfold timer_ok; cbn; rewrite ?Htm; exact I.
  - destruct (_flushTimer (client s)) as [tm|] eqn:Htm; [|exact Hok].
    rewrite timer_callback_state. now apply (timer_ok_flush true).
Qed.

Lemma run_ops_keeps_timer_ok (os : list Op) :
  forall s : St,
    timer_ok (client s) -> timer_ok (client (run_ops net os s)).
Proof.
  induction os as [|o os IH]; intros s Hok; cbn [run_ops]; [exact Hok|].
  now apply IH, op_keeps_timer_ok.
Qed.

End TimerFacts.

(** X12.  The life of the timer.  On a dispatcher that has no timer yet,
    in batch mode and not shut down, the completion of a job arms it with
    the configured interval.  Whatever runs afterwards, a timer that is
    there was armed in batch mode, with that interval, on a dispatcher not
    shut down: it is never armed in per-job mode and never replaced by one
    of another interval. *)
Theorem timer_armed_once_in_batch_mode :
  forall (net : nat -> FetchOutcome) (s : St),
    _flushTimer (client s) = None ->
    (forall events,
        mode (_options (client s)) = batch ->
        _shutdownCalled (client s) = false ->
        _flushTimer (client (snd (sendFn net events s)))
        = Some (Interval (batchInterval (_options (client s))))) /\
    (forall os tm,
        _flushTimer (client (run_ops net os s)) = Some tm ->
        tm = Interval (batchInterval (_options (client s))) /\
        mode (_options (client s)) = batch /\
        _shutdownCalled (client (run_ops net os s)) = false).
Proof.
  intros net s Hnone. split.
  - intros events Hmode Hsd. unfold sendFn. rewrite Hmode.
    unfold bind, modify, _ensureFlushTimer.
    cbn [on_client client with_buffer _flushTimer _shutdownCalled].
    rewrite Hnone, Hsd.
    match goal with
    | |- context [if ?c then flush net ?x else _] =>
        destruct c; [|reflexivity];
        destruct (flush_keeps net x) as (_ & -> & _)
    end.
    reflexivity.
  - intros os tm Htm.
    assert (Hok : timer_ok (client (run_ops net os s))).
    { apply run_ops_keeps_timer_ok. unfold timer_ok. now rewrite Hnone. }
    unfold timer_ok in Hok. rewrite Htm in Hok.
    now rewrite run_ops_keeps_options in Hok.
Qed.

(** A run of X12: two jobs complete in batch mode, the timer is the one
    of 60 s the first completion armed. *)
Lemma timer_armed_once_in_batch_mode_witness :
  let s := sample_state (sample_options batch 100 3 None) [] in
  _flushTimer
    (client (run_ops (always response_200)
               [OpSend (sample_job_events "a" 0);
                OpSend (sample_job_events "b" 5)] s))
  = Some (Interval 60000).
Proof.
  intros s.
  destruct (@timer_armed_once_in_batch_mode (always response_200) s eq_refl)
    as [_ Hlater].
  destruct (_flushTimer
              (client (run_ops (always response_200)
                         [OpSend (sample_job_events "a" 0);
                          OpSend (sample_job_events "b" 5)] s)))
    as [tm|] eqn:Htm; [|discriminate].
  now destruct (Hlater _ tm Htm) as (-> & _).
Defined.

(** The first [shutdown] marks the dispatcher and takes the timer away. *)
Lemma shutdown_marks (net : nat -> FetchOutcome) (s : St) :
  _shutdownCalled (client s) = false ->
  _shutdownCalled (client (snd (shutdown net s))) = true /\
  _flushTimer (client (snd (shutdown net s))) = None.
Proof.
  intros Hsd. unfold shutdown. rewrite Hsd.
  cbn [on_client client with_shutdownCalled _flushTimer].
  destruct (_flushTimer (client s)) as [tm|] eqn:Htm;
    match goal with
    | |- context [if ?c then flush net ?x else _] =>
        destruct c;
        [destruct (flush_keeps net x) as (_ & Ht & Hs & _);
         rewrite Ht, Hs|];
        cbn; rewrite ?Htm; auto
    end.
Qed.

(** X13.  After the first [shutdown] the dispatcher never has a timer
    again, whatever runs on it.  A job that completes in batch mode after
    that, without filling the buffer to the batch size, is put in the
    buffer and stays there: no request is made and nothing is left to
    flush it but a call of [flush] by the host. *)
Theorem no_timer_after_shutdown :
  forall (net : nat -> FetchOutcome) (s : St),
    _shutdownCalled (client s) = false ->
    let s1 := snd (shutdown net s) in
    (forall os,
        _flushTimer (client (run_ops net os s1)) = None /\
        _shutdownCalled (client (run_ops net os s1)) = true) /\
    (forall events,
        mode (_options (client s)) = batch ->
        Z.of_nat (List.length (_buffer (client s1) ++ events))
        < batchSize (_options (client s)) ->
        fst (sendFn net events s1) = Ok tt /\
        trace (snd (sendFn net events s1)) = trace s1 /\
        _buffer (client (snd (sendFn net events s1)))
        = _buffer (client s1) ++ events /\
        _flushTimer (client (snd (sendFn net events s1))) = None).
Proof.
  intros net s Hsd s1.
  destruct (@shutdown_marks net s Hsd) as (Hsd1 & Htm1).
  fold s1 in Hsd1, Htm1.
  assert (Ho1 : _options (client s1) = _options (client s))
    by apply (op_keeps_options net OpShutdown s).
  split.
  - intros os.
    assert (Hok : timer_ok (client (run_ops net os s1))).
    { apply run_ops_keeps_timer_ok. unfold timer_ok. now rewrite Htm1. }
    assert (Hsd' : _shutdownCalled (client (run_ops net os s1)) = true)
      by now apply (@run_ops_quiescent net os s1).
    split; [|exact Hsd'].
    unfold timer_ok in Hok.
    destruct (_flushTimer (client (run_ops net os s1))); [|reflexivity].
    destruct Hok as (_ & _ & Hfalse). congruence.
  - intros events Hmode Hsmall.
    unfold sendFn. rewrite Ho1, Hmode.
    unfold bind, modify, _ensureFlushTimer.
    cbn [on_client client with_buffer _flushTimer _shutdownCalled].
    rewrite Htm1, Hsd1.
    cbn [on_client client with_buffer _buffer _options]. rewrite Ho1.
    destruct (Z.leb_spec (batchSize (_options (client s)))
                (Z.of_nat (List.length (_buffer (client s1) ++ events))));
      [lia|].
    cbn. auto.
Qed.

(** A run of X13: a job completes after [shutdown] and stays buffered. *)
Lemma no_timer_after_shutdown_witness :
  let s := sample_state (sample_options batch 100 3 None) [] in
  let s2 :=
    snd (sendFn (always response_200) (sample_job_events "a" 0)
           (snd (shutdown (always response_200) s))) in
  trace s2 = [] /\
  _buffer (client s2) = sample_job_events "a" 0 /\
  _flushTimer (client s2) = None.
Proof.
  intros s s2.
  destruct (@no_timer_after_shutdown (always response_200) s eq_refl)
    as [_ Hsend].
  destruct (Hsend (sample_job_events "a" 0) eq_refl ltac:(cbn; lia))
    as (_ & Htr & Hbuf & Htm).
  split; [exact Htr|]. split; [exact Hbuf | exact Htm].
Defined.

Section ModeFacts.

Variable net : nat -> FetchOutcome.

(** In per-job mode with nothing buffered, no operation buffers
    anything. *)
Lemma op_per_job (o : Op) (s : St) :
  mode (_options (client s)) = per_job ->
  _buffer (client s) = [] ->
  _buffer (client (snd (op net o s))) = [].
Proof.
  intros Hmode Hb.
  destruct o as [events | | |]; cbn [op].
  - unfold sendFn. rewrite Hmode. unfold try_catch, ret.
    pose proof (send_client net events s) as Hc.
    destruct (_send net events s) as [[[]|e] s']; cbn [snd] in *;
      now rewrite Hc.
  - now rewrite flush_guard by (now left).
  - unfold shutdown.
    destruct (_shutdownCalled (client s)); [exact Hb|].
    cbn [on_client client with_shutdownCalled _flushTimer].
    destruct (_flushTimer (client s)) as [tm|]; cbn; now rewrite Hb.
  - destruct (_flushTimer (client s)) as [tm|]; [|exact Hb].
    rewrite timer_callback_state. now rewrite flush_guard by (now left).
Qed.

End ModeFacts.

(** X14.  In per-job mode the dispatcher keeps nothing: starting with an
    empty buffer and no timer, whatever jobs complete and whatever is
    called on it, the buffer stays empty and no timer is armed. *)
Theorem per_job_mode_keeps_nothing :
  forall (net : nat -> FetchOutcome) (s : St) (os : list Op),
    mode (_options (client s)) = per_job ->
    _buffer (client s) = [] ->
    _flushTimer (client s) = None ->
    _buffer (client (run_ops net os s)) = [] /\
    _flushTimer (client (run_ops net os s)) = None.
Proof.
  intros net s os Hmode Hb Htm. split.
  - revert s Hmode Hb Htm.
    induction os as [|o os IH]; intros s Hmode Hb Htm; cbn [run_ops];
      [exact Hb|].
    assert (Hok : timer_ok (client (snd (op net o s)))).
    { apply op_keeps_timer_ok. unfold timer_ok. now rewrite Htm. }
    assert (Ho : _options (client (snd (op net o s)))
                 = _options (client s)) by apply op_keeps_options.
    apply IH.
    + now rewrite Ho.
    + now apply op_per_job.
    + unfold timer_ok in Hok.
      destruct (_flushTimer (client (snd (op net o s)))); [|reflexivity].
      destruct Hok as (_ & Hbatch & _). rewrite Ho in Hbatch. congruence.
  - assert (Hok : timer_ok (client (run_ops net os s))).
    { apply run_ops_keeps_timer_ok. unfold timer_ok. now rewrite Htm. }
    unfold timer_ok in Hok.
    destruct (_flushTimer (client (run_ops net os s))); [|reflexivity].
    destruct Hok as (_ & Hbatch & _).
    rewrite run_ops_keeps_options in Hbatch. congruence.
Qed.

(** A run of X14: two jobs complete and the host calls [flush]. *)
Lemma per_job_mode_keeps_nothing_witness :
  let s := sample_state (sample_options per_job 1 3 None) [] in
  let s' :=
    run_ops (always response_200)
      [OpSend (sample_job_events "a" 0); OpSend (sample_job_events "b" 5);
       OpFlush] s in
  _buffer (client s') = [] /\ _flushTimer (client s') = None.
Proof.
  exact (@per_job_mode_keeps_nothing (always response_200)
           (sample_state (sample_options per_job 1 3 None) [])
           [OpSend (sample_job_events "a" 0);
            OpSend (sample_job_events "b" 5); OpFlush]
           eq_refl eq_refl eq_refl).
Defined.

(** X15.  One flush at a time: while a flush is in flight on a batch-mode
    dispatcher, a call of [flush], a tick of the timer, a [shutdown] or
    the completion of a job makes no request and leaves the guard set;
    completions only put their events at the end of the buffer, in
    order. *)
Theorem one_flush_at_a_time :
  forall (net : nat -> FetchOutcome) (s : St) (os : list Op),
    mode (_options (client s)) = batch ->
    _flushing (client s) = true ->
    trace (run_ops net os s) = trace s /\
    _flushing (client (run_ops net os s)) = true /\
    _buffer (client (run_ops net os s))
    = _buffer (client s) ++ appended os.
Proof.
  intros net s os Hmode Hfl.
  destruct (@run_ops_in_flight net os s Hmode Hfl) as (Ht & Hf & _ & Hb).
  auto.
Qed.

(** A run of X15: the buffer is over the batch size and the host calls
    [flush], but a flush is in flight. *)
Lemma one_flush_at_a_time_witness :
  let s :=
    {| client :=
         {| _options := sample_options batch 1 3 None;
            _buffer := sample_job_events "a" 0;
            _flushTimer := Some (Interval 60000);
            _flushing := true; _shutdownCalled := false |};
       trace := [] |} in
  let s' :=
    run_ops (always response_200)
      [OpSend (sample_job_events "b" 5); OpFlush; OpTimer] s in
  trace s' = [] /\
  _flushing (client s') = true /\
  _buffer (client s') = sample_job_events "a" 0 ++ sample_job_events "b" 5.
Proof.
  intros s s'.
  exact (@one_flush_at_a_time (always response_200) s
           [OpSend (sample_job_events "b" 5); OpFlush; OpTimer]
           eq_refl eq_refl).
Defined.

Section BatchAccounting.

Variable net : nat -> FetchOutcome.

Lemma sent_events_app (t1 t2 : list Effect) :
  sent_events (t1 ++ t2) = sent_events t1 ++ sent_events t2.
Proof.
  unfold sent_events. now rewrite fetch_bodies_app, concat_app.
Qed.

(** What an operation in batch mode comes to: the events of a completing
    job are appended to the buffer, the timer and the shutdown mark may
    change, and then [flush] runs or does not. *)
Lemma op_batch_by_flush (o : Op) (s : St) :
  mode (_options (client s)) = batch ->
  exists s',
    _options (client s') = _options (client s) /\
    _flushing (client s') = _flushing (client s) /\
    _buffer (client s') = _buffer (client s) ++ appended [o] /\
    trace s' = trace s /\
    (snd (op net o s) = s' \/ snd (op net o s) = snd (flush net s')).
Proof.
  intros Hmode.
  assert (Hif : forall (b : bool) (s' : St),
             snd (if b then flush net s' else (Ok tt, s')) = s' \/
             snd (if b then flush net s' else (Ok tt, s'))
             = snd (flush net s'))
    by (intros [|] s'; auto).
  assert (Hnil : forall l : list IngestEvent, l = l ++ [])
    by (intros l; now rewrite app_nil_r).
  destruct o as [events | | |]; cbn [op appended].
  - unfold sendFn. rewrite Hmode.
    unfold bind, modify, _ensureFlushTimer.
    cbn [on_client client with_buffer _flushTimer _shutdownCalled].
    rewrite app_nil_r.
    destruct (_flushTimer (client s)) as [tm|];
      [|destruct (_shutdownCalled (client s))];
      match goal with
      | |- context [if ?c then flush net ?x else _] =>
          exists x; cbn [client trace _options _flushing _buffer];
          repeat split; try reflexivity; apply Hif
      end.
  - exists s. repeat split; auto.
  - unfold shutdown.
    destruct (_shutdownCalled (client s)); [exists s; repeat split; auto|].
    cbn [on_client client with_shutdownCalled _flushTimer].
    destruct (_flushTimer (client s)) as [tm|];
      match goal with
      | |- context [if ?c then flush net ?x else _] =>
          exists x; cbn [client trace _options _flushing _buffer];
          repeat split; try reflexivity; try apply Hnil; apply Hif
      end.
  - exists s.
    destruct (_flushTimer (client s)) as [tm|];
      [rewrite timer_callback_state|]; repeat split; auto.
Qed.

(** With a transport that answers every request with a success, a flush
    moves the whole buffer to the wire in one request. *)
Lemma flush_healthy (resp : nat -> Response) (s : St) :
  net = (fun k => Resolves (resp k)) ->
  (forall k, success_response (resp k) = true) ->
  disabled (_options (client s)) = false ->
  0 <= maxRetries (_options (client s)) ->
  _flushing (client s) = false ->
  sent_events (trace (snd (flush net s)))
  ++ _buffer (client (snd (flush net s)))
  = sent_events (trace s) ++ _buffer (client s) /\
  _flushing (client (snd (flush net s))) = false.
Proof.
  intros Hnet Hok Hen Hretries Hfl.
  destruct (flush_cases net s)
    as [[-> _] | (Hne & _ & Htr & Hbuf & Hfl')]; [auto|].
  assert (Hnow : net (fetch_count (trace s))
                 = Resolves (resp (fetch_count (trace s))))
    by now rewrite Hnet.
  pose proof (@send_success_first net (_buffer (client s)) s
                (resp (fetch_count (trace s)))
                Hen Hne Hretries Hnow (Hok _)) as Hsend.
  rewrite Hsend in Htr, Hbuf.
  cbn [fst snd emit trace] in Htr, Hbuf.
  rewrite Htr, Hbuf, sent_events_app, app_nil_r.
  split; [|exact Hfl'].
  unfold sent_events at 2. cbn. now rewrite app_nil_r.
Qed.

(** With a transport on which every attempt fails in a way that is
    retried, a flush leaves the buffer as it was. *)
Lemma flush_outage (s : St) :
  (forall k, falls_through (net k) <> None) ->
  disabled (_options (client s)) = false ->
  0 <= maxRetries (_options (client s)) ->
  _flushing (client s) = false ->
  _buffer (client (snd (flush net s))) = _buffer (client s) /\
  _flushing (client (snd (flush net s))) = false.
Proof.
  intros Hfall Hen Hretries Hfl.
  destruct (flush_cases net s)
    as [[-> _] | (Hne & _ & _ & Hbuf & Hfl')]; [auto|].
  split; [|exact Hfl'].
  destruct (@send_all_fall net
              (fun k => match falls_through (net k) with
                        | Some e => e
                        | None => MkError ""
                        end)
              (_buffer (client s)) s) as (Hthrow & _); try assumption.
  { intros k. specialize (Hfall k).
    now destruct (falls_through (net k)). }
  now rewrite Hthrow in Hbuf.
Qed.

End BatchAccounting.

(** X16.  Nothing is lost, sent twice or reordered while the transport is
    well: on an enabled batch-mode dispatcher with no flush in flight and
    a transport that answers every request with a 2xx or a 207, after any
    completions of jobs, calls of [flush] and [shutdown] and ticks of the
    timer, the events sent so far followed by the events still buffered
    are the events that were sent or buffered before followed by the
    events of the jobs completed since, in the order of completion. *)
Theorem healthy_transport_loses_nothing :
  forall (resp : nat -> Response) (s : St) (os : list Op),
    mode (_options (client s)) = batch ->
    disabled (_options (client s)) = false ->
    0 <= maxRetries (_options (client s)) ->
    _flushing (client s) = false ->
    (forall k, success_response (resp k) = true) ->
    let net := fun k => Resolves (resp k) in
    sent_events (trace (run_ops net os s))
    ++ _buffer (client (run_ops net os s))
    = sent_events (trace s) ++ _buffer (client s) ++ appended os.
Proof.
  intros resp s os Hmode Hen Hretries Hfl Hok net.
  revert s Hmode Hen Hretries Hfl.
  induction os as [|o os IH]; intros s Hmode Hen Hretries Hfl;
    cbn [run_ops].
  - cbn. now rewrite app_nil_r.
  - destruct (op_batch_by_flush net o s Hmode)
      as (s' & Ho & Hf & Hb & Ht & Hcase).
    destruct (@flush_healthy net resp s' eq_refl Hok) as [Hacc Hfl'];
      try (rewrite ?Ho, ?Hf; assumption).
    assert (Hstep : sent_events (trace (snd (op net o s)))
                    ++ _buffer (client (snd (op net o s)))
                    = sent_events (trace s) ++ _buffer (client s)
                      ++ appended [o] /\
                    _flushing (client (snd (op net o s))) = false).
    { destruct Hcase as [-> | ->].
      - rewrite Ht, Hb, Hf. auto.
      - rewrite Hacc, Ht, Hb. auto. }
    destruct Hstep as [Hstep Hquiet].
    rewrite IH; try assumption;
      try (rewrite op_keeps_options; assumption).
    rewrite app_assoc, Hstep, (appended_cons o os), <- !app_assoc.
    reflexivity.
Qed.

(** A run of X16: batch size 3, three jobs complete and the host calls
    [flush]; two requests carry the six events in order. *)
Lemma healthy_transport_loses_nothing_witness :
  let s := sample_state (sample_options batch 3 3 None) [] in
  let s' :=
    run_ops (always response_200)
      [OpSend (sample_job_events "a" 0); OpSend (sample_job_events "b" 5);
       OpSend (sample_job_events "c" 9); OpFlush] s in
  sent_events (trace s') ++ _buffer (client s')
  = sample_job_events "a" 0 ++ sample_job_events "b" 5
    ++ sample_job_events "c" 9.
Proof.
  exact (@healthy_transport_loses_nothing (fun _ => response_200)
           (sample_state (sample_options batch 3 3 None) [])
           [OpSend (sample_job_events "a" 0);
            OpSend (sample_job_events "b" 5);
            OpSend (sample_job_events "c" 9); OpFlush]
           eq_refl eq_refl ltac:(cbn; lia) eq_refl (fun _ => eq_refl)).
Defined.

(** X17.  Nothing is lost during an outage either: on an enabled
    batch-mode dispatcher with [maxRetries >= 0] and no flush in flight,
    when every attempt fails in a way that is retried (rejections, 5xx,
    429 and the like), every flush puts its events back, so that after any
    completions of jobs, flushes, ticks and [shutdown] the buffer is what
    it was followed by the events of the jobs completed since, in the
    order of completion.  The buffer is not bounded. *)
Theorem outage_keeps_every_event :
  forall (net : nat -> FetchOutcome) (s : St) (os : list Op),
    mode (_options (client s)) = batch ->
    disabled (_options (client s)) = false ->
    0 <= maxRetries (_options (client s)) ->
    _flushing (client s) = false ->
    (forall k, falls_through (net k) <> None) ->
    _buffer (client (run_ops net os s)) = _buffer (client s) ++ appended os.
Proof.
  intros net s os Hmode Hen Hretries Hfl Hfall.
  revert s Hmode Hen Hretries Hfl.
  induction os as [|o os IH]; intros s Hmode Hen Hretries Hfl;
    cbn [run_ops].
  - cbn. now rewrite app_nil_r.
  - destruct (op_batch_by_flush net o s Hmode)
      as (s' & Ho & Hf & Hb & Ht & Hcase).
    destruct (@flush_outage net s' Hfall) as [Hbuf Hfl'];
      try (rewrite ?Ho, ?Hf; assumption).
    assert (Hstep : _buffer (client (snd (op net o s)))
                    = _buffer (client s) ++ appended [o] /\
                    _flushing (client (snd (op net o s))) = false).
    { destruct Hcase as [-> | ->].
      - rewrite Hb, Hf. auto.
      - rewrite Hbuf, Hb. auto. }
    destruct Hstep as [Hstep Hquiet].
    rewrite IH; try assumption;
      try (rewrite op_keeps_options; assumption).
    rewrite Hstep, (appended_cons o os), <- app_assoc. reflexivity.
Qed.

(** A run of X17: batch size 1 and a transport that always answers 500;
    two jobs complete, each completion flushes and fails. *)
Lemma outage_keeps_every_event_witness :
  let s := sample_state (sample_options batch 1 0 None) [] in
  _buffer (client (run_ops (always response_500)
                     [OpSend (sample_job_events "a" 0);
                      OpSend (sample_job_events "b" 5)] s))
  = sample_job_events "a" 0 ++ sample_job_events "b" 5.
Proof.
  exact (@outage_keeps_every_event (always response_500)
           (sample_state (sample_options batch 1 0 None) [])
           [OpSend (sample_job_events "a" 0);
            OpSend (sample_job_events "b" 5)]
           eq_refl eq_refl ltac:(cbn; lia) eq_refl
           (fun _ => ltac:(discriminate))).
Defined.

Section ConstructorFacts.

(** Taking the slashes off the front of a list of characters: what is
    taken off is slashes only, and what is left does not start with
    one. *)
Lemma drop_slashes_spec (l : list ascii) :
  let drop :=
    fix drop (l : list ascii) : list ascii :=
      match l with
      | c :: l' => if Ascii.eqb c "/"%char then drop l' else l
      | [] => []
      end in
  exists n,
    l = repeat "/"%char n ++ drop l /\
    forall l', drop l <> "/"%char :: l'.
Proof.
  cbv zeta. induction l as [|c l IH].
  - exists 0%nat. split; [reflexivity | discriminate].
  - destruct (Ascii.eqb_spec c "/"%char) as [-> | Hc].
    + destruct IH as (n & Hl & Hhead).
      exists (Datatypes.S n). cbn [repeat app]. split; [now f_equal|].
      exact Hhead.
    + exists 0%nat. split; [reflexivity|]. intros l' [= Hc' _].
      contradiction.
Qed.

(** [replace(/\/+$/, '')] takes trailing slashes off and nothing else. *)
Lemma strip_trailing_slashes_spec (s : string) :
  exists n,
    list_ascii_of_string s
    = list_ascii_of_string (strip_trailing_slashes s)
      ++ repeat "/"%char n /\
    forall l,
      list_ascii_of_string (strip_trailing_slashes s) <> l ++ ["/"%char].
Proof.
  unfold strip_trailing_slashes.
  rewrite list_ascii_of_string_of_list_ascii.
  destruct (drop_slashes_spec (rev (list_ascii_of_string s)))
    as (n & Hrev & Hhead).
  cbv zeta in Hrev, Hhead.
  exists n. split.
  - rewrite <- (rev_involutive (list_ascii_of_string s)) at 1.
    rewrite Hrev at 1. now rewrite rev_app_distr, rev_repeat.
  - intros l Heq. apply (Hhead (rev l)).
    rewrite <- (rev_involutive (_ (rev (list_ascii_of_string s)))).
    rewrite Heq, rev_app_distr. reflexivity.
Qed.

End ConstructorFacts.

(** X18.  The constructor refuses an empty [apiKey] with the error
    'Synquer: apiKey is required' and accepts any other.  The client it
    builds has an empty buffer, no timer, no flush in flight and is not
    shut down; its base address is the one given, or the default, without
    its trailing slashes and otherwise unchanged, so that the address of
    the requests has a single slash before [v1]. *)
Theorem new_Synquer_requires_key_and_trims_address :
  forall options : SynquerOptions,
    (opt_apiKey options = "" ->
     new_Synquer options = Throw (MkError "Synquer: apiKey is required")) /\
    (opt_apiKey options <> "" ->
     exists c,
       new_Synquer options = Ok c /\
       apiKey (_options c) = opt_apiKey options /\
       _buffer c = [] /\ _flushTimer c = None /\
       _flushing c = false /\ _shutdownCalled c = false /\
       exists n,
         list_ascii_of_string
           (or_default (opt_baseUrl options) DEFAULT_BASE_URL)
         = list_ascii_of_string (baseUrl (_options c))
           ++ repeat "/"%char n /\
         forall l,
           list_ascii_of_string (baseUrl (_options c)) <> l ++ ["/"%char]).
Proof.
  intros options. unfold new_Synquer, truthy_str. split.
  - intros ->. reflexivity.
  - intros Hkey.
    destruct (String.eqb_spec (opt_apiKey options) "") as [Heq | _];
      [contradiction|].
    cbn [negb]. eexists. split; [reflexivity|].
    cbn [_options apiKey baseUrl _buffer _flushTimer _flushing
         _shutdownCalled].
    repeat (split; [reflexivity|]).
    apply strip_trailing_slashes_spec.
Qed.

(** A run of X18 after the test 'strips trailing slash from baseUrl'. *)
Lemma new_Synquer_requires_key_and_trims_address_witness :
  exists c,
    new_Synquer
      {| opt_apiKey := "sk_dev_test";
         opt_baseUrl := Some "http://localhost:3001/";
         opt_mode := None; opt_batchInterval := None;
         opt_batchSize := None; opt_maxRetries := None;
         opt_onError := None; opt_disabled := None |}
    = Ok c /\
    baseUrl (_options c) = "http://localhost:3001".
Proof.
  destruct (new_Synquer_requires_key_and_trims_address
              {| opt_apiKey := "sk_dev_test";
                 opt_baseUrl := Some "http://localhost:3001/";
                 opt_mode := None; opt_batchInterval := None;
                 opt_batchSize := None; opt_maxRetries := None;
                 opt_onError := None; opt_disabled := None |})
    as [_ Hok].
  destruct (Hok ltac:(discriminate)) as (c & Hc & _).
  exists c. split; [exact Hc|].
  cbv in Hc. now injection Hc as <-.
Defined.

Section TerminalAfterRetries.

Variable net : nat -> FetchOutcome.




End TerminalAfterRetries.






(** X20.  In per-job mode the completion of a job sends the job: a
    terminal call that builds its event, on an open job of an enabled
    client whose next request is answered with a success, makes one
    request whose body is the whole sequence of the job's events, the
    terminal event included; the call resolves and the dispatcher is left
    as it was.  A [failed] whose [String(error)] throws completes the job
    all the same, but rejects, appends nothing and sends nothing. *)
Theorem per_job_completion_sends_the_job :
  forall (net : nat -> FetchOutcome) (clock : nat -> Z) (t : Terminal)
         (st : JState St) (r : Response),
    _completed (the_job st) = false ->
    mode (_options (client (ext st))) = per_job ->
    disabled (_options (client (ext st))) = false ->
    0 <= maxRetries (_options (client (ext st))) ->
    net (fetch_count (trace (ext st))) = Resolves r ->
    success_response r = true ->
    let res := terminal clock (sendFn net) t st in
    _completed (the_job (snd res)) = true /\
    client (ext (snd res)) = client (ext st) /\
    if builds_event t then
      fst res = Ok tt /\
      (exists e,
          type e = terminal_type t /\
          _events (the_job (snd res)) = _events (the_job st) ++ [e]) /\
      fetch_bodies (trace (ext (snd res)))
      = fetch_bodies (trace (ext st)) ++ [_events (the_job (snd res))]
    else
      (exists x, fst res = Throw x) /\
      _events (the_job (snd res)) = _events (the_job st) /\
      trace (ext (snd res)) = trace (ext st).
Proof.
  intros net clock t st r Hc Hmode Hen Hretries Hnet Hok res.
  destruct (builds_event t) eqn:Hb.
  - destruct (@terminal_open St clock (sendFn net) t st Hc Hb)
      as (e & k & Hty & _ & _ & Hres).
    unfold res. rewrite Hres. cbn [fst snd the_job _events _completed ext].
    assert (Hsend : sendFn net (_events (the_job st) ++ [e]) (ext st)
                    = _send net (_events (the_job st) ++ [e]) (ext st)).
    { unfold sendFn. rewrite Hmode. unfold try_catch.
      rewrite (@send_success_first net (_events (the_job st) ++ [e])
                 (ext st) r); try assumption; [reflexivity|].
      now destruct (_events (the_job st)). }
    rewrite Hsend.
    rewrite (@send_success_first net (_events (the_job st) ++ [e])
               (ext st) r); try assumption;
      [| now destruct (_events (the_job st))].
    cbn [fst snd emit trace client]. rewrite fetch_bodies_app.
    split; [reflexivity|]. split; [reflexivity|]. split; [reflexivity|].
    split; [|reflexivity]. now exists e.
  - destruct (@terminal_throws St clock (sendFn net) t st Hc Hb)
      as (err & x & k & _ & _ & _ & Hres).
    unfold res. rewrite Hres. cbn [fst snd the_job _events _completed ext].
    split; [reflexivity|]. split; [reflexivity|].
    split; [now exists x|]. split; reflexivity.
Qed.

(** A run of X20 after the test 'sends events immediately on job.done()
    in per-job mode'. *)
Lemma per_job_completion_sends_the_job_witness :
  let s := sample_state (sample_options per_job 100 3 None) [] in
  let st :=
    snd (event sample_clock (inl "Processing")
           (job sample_clock "a" sample_job_options 0 s)) in
  let res := done sample_clock (sendFn (always response_200)) JUndefined st in
  map (map type) (fetch_bodies (trace (ext (snd res))))
  = [[job_started; job_event; job_done]].
Proof.
  intros s st res.
  destruct (@per_job_completion_sends_the_job (always response_200)
              sample_clock (TDone JUndefined) st response_200
              eq_refl eq_refl eq_refl ltac:(cbn; lia) eq_refl eq_refl)
    as (_ & _ & _ & _ & Hbodies).
  change (terminal sample_clock (sendFn (always response_200))
            (TDone JUndefined) st) with res in Hbodies.
  rewrite Hbodies. reflexivity.
Defined.
